(** * spark_wiring.cpp: pin I/O, cooperative delay, shift and map helpers

    A shallow embedding of [src/src/spark_wiring.cpp] (Spark Core firmware,
    STM32F103, ILP32: [long] and [system_tick_t] are 32 bits wide) and the
    properties of its specification checked against it.

    The board header, the HAL and the bus drivers are not part of the file:
    the board constants are a type class [Board], the HAL and the network
    loop a type class [Platform] over an abstract hardware state. *)

From stdpp Require Import base numbers list.

Local Open Scope Z_scope.

(** ** Machine integers *)

Module Machine.

(** Conversion to [uint8_t] / [uint16_t] / [uint32_t]. *)
Definition to_uint8 (x : Z) : Z := x mod 2 ^ 8.
Definition to_uint16 (x : Z) : Z := x mod 2 ^ 16.
Definition to_ulong (x : Z) : Z := x mod 2 ^ 32.

(** Conversion to a 32-bit two's complement [long] / [int32_t]. *)
Definition to_long (x : Z) : Z :=
  let y := x mod 2 ^ 32 in
  if y <? 2 ^ 31 then y else y - 2 ^ 32.

Definition is_uint8 (x : Z) : Prop := 0 <= x < 2 ^ 8.
Definition is_uint16 (x : Z) : Prop := 0 <= x < 2 ^ 16.
Definition is_ulong (x : Z) : Prop := 0 <= x < 2 ^ 32.
Definition is_long (x : Z) : Prop := - 2 ^ 31 <= x < 2 ^ 31.

End Machine.
Export Machine.

(** ** Data model *)

(** Modelled from the spec: the [PinMode] enumeration of [spark_wiring.h]
    (section 3: a closed enumeration whose sentinel is [NONE]). *)
Inductive PinMode : Type :=
  | NONE
  | INPUT
  | INPUT_PULLUP
  | INPUT_PULLDOWN
  | AN_INPUT
  | OUTPUT
  | AF_OUTPUT_PUSHPULL
  | AF_OUTPUT_DRAIN.

#[global] Instance PinMode_eq_dec : EqDecision PinMode.
Proof. solve_decision. Defined.

(** Modelled from the spec: one entry of the board table [PIN_MAP]. The
    sentinels of the source ([adc_channel == NONE],
    [timer_peripheral == NULL]) are the [None] of the option. *)
Record STM32_Pin_Info : Type := mkPin {
  pin_mode : PinMode;
  adc_channel : option Z;
  timer_peripheral : option Z
}.

Definition set_pin_mode (m : PinMode) (e : STM32_Pin_Info) : STM32_Pin_Info :=
  {| pin_mode := m; adc_channel := adc_channel e;
     timer_peripheral := timer_peripheral e |}.

(** Modelled from the spec: [BitOrder] is an enumeration of two values. *)
Inductive BitOrder : Type := LSBFIRST | MSBFIRST.

Definition LOW : Z := 0.
Definition HIGH : Z := 1.

(** The constants of the board header used by the file. *)
Class Board : Type := {
  TOTAL_PINS : Z;
  FIRST_ANALOG_PIN : Z;
  SCK : Z; MOSI : Z; MISO : Z;
  SCL : Z; SDA : Z;
  RX : Z; TX : Z;
  SPARK_WLAN_ENABLE : bool;
  SPARK_LOOP_DELAY_MILLIS : Z
}.

(** The external collaborators: the HAL primitives, the tick sources and the
    network loop with its volatile flags, as functions on a hardware state. *)
Class Platform (HW : Type) : Type := {
  hal_pin_mode : Z -> PinMode -> HW -> HW;
  hal_gpio_write : Z -> Z -> HW -> HW;
  hal_gpio_read : Z -> HW -> Z * HW;
  hal_adc_read : Z -> HW -> Z * HW;
  hal_adc_set_sample_time : Z -> HW -> HW;
  hal_pwm_write : Z -> Z -> HW -> HW;
  system_1ms_tick : HW -> Z * HW;
  hal_micro_seconds : HW -> Z * HW;
  delay_microsecond : Z -> HW -> HW;
  wlan_loop : HW -> HW;
  wlan_setup : HW -> bool;
  wlan_sleep : HW -> bool;
  flash_update : HW -> bool
}.

(** A call of a HAL pin primitive, with the value it returned for reads. *)
Inductive HalCall : Type :=
  | Call_Pin_Mode (pin : Z) (m : PinMode)
  | Call_GPIO_Write (pin value : Z)
  | Call_GPIO_Read (pin result : Z)
  | Call_ADC_Read (pin result : Z)
  | Call_ADC_Set_Sample_Time (value : Z)
  | Call_PWM_Write (pin value : Z).

(** What the delay loop does that can be observed from outside. *)
Inductive TimeEvent : Type :=
  | Kick
  | Poll (tick : Z)
  | Service.

Section Wiring.

Context {bd : Board} {HW : Type} {pf : Platform HW}.

Record World : Type := mkWorld {
  PIN_MAP : list STM32_Pin_Info;
  SPI_isEnabled : bool;
  Wire_isEnabled : bool;
  Serial1_isEnabled : bool;
  hw : HW;
  hal_calls : list HalCall;
  spark_loop_total_millis : Z;
  timeline : list TimeEvent
}.

Definition with_hw (h : HW) (c : list HalCall) (w : World) : World :=
  {| PIN_MAP := PIN_MAP w; SPI_isEnabled := SPI_isEnabled w;
     Wire_isEnabled := Wire_isEnabled w;
     Serial1_isEnabled := Serial1_isEnabled w;
     hw := h; hal_calls := hal_calls w ++ c;
     spark_loop_total_millis := spark_loop_total_millis w;
     timeline := timeline w |}.

Definition with_time (h : HW) (total : Z) (ev : list TimeEvent) (w : World)
  : World :=
  {| PIN_MAP := PIN_MAP w; SPI_isEnabled := SPI_isEnabled w;
     Wire_isEnabled := Wire_isEnabled w;
     Serial1_isEnabled := Serial1_isEnabled w;
     hw := h; hal_calls := hal_calls w;
     spark_loop_total_millis := total;
     timeline := timeline w ++ ev |}.

Definition with_table (t : list STM32_Pin_Info) (w : World) : World :=
  {| PIN_MAP := t; SPI_isEnabled := SPI_isEnabled w;
     Wire_isEnabled := Wire_isEnabled w;
     Serial1_isEnabled := Serial1_isEnabled w;
     hw := hw w; hal_calls := hal_calls w;
     spark_loop_total_millis := spark_loop_total_millis w;
     timeline := timeline w |}.

(** *** State and error monad: an access to [PIN_MAP] outside the table
    is an error of its own. *)

Inductive Res (A : Type) : Type :=
  | Done (a : A) (w : World)
  | OutOfBounds.
Arguments Done {A} a w.
Arguments OutOfBounds {A}.

Definition M (A : Type) : Type := World -> Res A.

Definition ret {A} (a : A) : M A := fun w => Done a w.

Definition bind {A B} (m : M A) (k : A -> M B) : M B :=
  fun w => match m w with
           | Done a w' => k a w'
           | OutOfBounds => OutOfBounds
           end.

Definition gets {A} (f : World -> A) : M A := fun w => Done (f w) w.

Notation "x <- m ;; k" := (bind m (fun x => k))
  (at level 100, m at next level, right associativity).
Notation "m ;;; k" := (bind m (fun _ => k))
  (at level 100, k at level 100, right associativity).

(** [PIN_MAP[pin]] *)
Definition table (pin : Z) : M STM32_Pin_Info :=
  fun w => match PIN_MAP w !! Z.to_nat pin with
           | Some e => Done e w
           | None => OutOfBounds
           end.

(** *** The HAL primitives, as the layer calls them *)

(** Modelled from the spec: [HAL_Pin_Mode] applies the configuration and
    updates the [mode] field of the board table (section 4.2). *)
Definition HAL_Pin_Mode (pin : Z) (m : PinMode) : M unit := fun w =>
  Done tt (with_table (alter (set_pin_mode m) (Z.to_nat pin) (PIN_MAP w))
             (with_hw (hal_pin_mode pin m (hw w)) [Call_Pin_Mode pin m] w)).

Definition HAL_GPIO_Write (pin value : Z) : M unit := fun w =>
  Done tt (with_hw (hal_gpio_write pin value (hw w))
             [Call_GPIO_Write pin value] w).

Definition HAL_GPIO_Read (pin : Z) : M Z := fun w =>
  let '(r, h) := hal_gpio_read pin (hw w) in
  Done (to_long r) (with_hw h [Call_GPIO_Read pin (to_long r)] w).

Definition HAL_ADC_Read (pin : Z) : M Z := fun w =>
  let '(r, h) := hal_adc_read pin (hw w) in
  Done (to_long r) (with_hw h [Call_ADC_Read pin (to_long r)] w).

Definition HAL_ADC_Set_Sample_Time (value : Z) : M unit := fun w =>
  Done tt (with_hw (hal_adc_set_sample_time value (hw w))
             [Call_ADC_Set_Sample_Time value] w).

Definition HAL_PWM_Write (pin value : Z) : M unit := fun w =>
  Done tt (with_hw (hal_pwm_write pin value (hw w))
             [Call_PWM_Write pin value] w).

(** *** Pin arbitration and the pin operations *)

Definition pinAvailable (pin : Z) (w : World) : bool :=
  if SPI_isEnabled w && ((pin =? SCK) || (pin =? MOSI) || (pin =? MISO))
  then false
  else if Wire_isEnabled w && ((pin =? SCL) || (pin =? SDA))
  then false
  else if Serial1_isEnabled w && ((pin =? RX) || (pin =? TX))
  then false
  else true.

Definition pinMode (pin : Z) (setMode : PinMode) : M unit :=
  if (TOTAL_PINS <=? pin) || bool_decide (setMode = NONE) then ret tt
  else
    avail <- gets (pinAvailable pin) ;;
    if negb avail then ret tt
    else HAL_Pin_Mode pin setMode.

Definition digitalWrite (pin value : Z) : M unit :=
  if TOTAL_PINS <=? pin then ret tt
  else
    e <- table pin ;;
    if bool_decide (pin_mode e = INPUT)
       || bool_decide (pin_mode e = INPUT_PULLUP)
       || bool_decide (pin_mode e = INPUT_PULLDOWN)
       || bool_decide (pin_mode e = AN_INPUT)
       || bool_decide (pin_mode e = NONE)
    then ret tt
    else
      avail <- gets (pinAvailable pin) ;;
      if negb avail then ret tt
      else HAL_GPIO_Write pin value.

Definition digitalRead (pin : Z) : M Z :=
  if TOTAL_PINS <=? pin then ret LOW
  else
    e <- table pin ;;
    if bool_decide (pin_mode e = NONE)
       || bool_decide (pin_mode e = AF_OUTPUT_PUSHPULL)
       || bool_decide (pin_mode e = AF_OUTPUT_DRAIN)
    then ret LOW
    else
      avail <- gets (pinAvailable pin) ;;
      if negb avail then ret LOW
      else HAL_GPIO_Read pin.

Definition setADCSampleTime (ADC_SampleTime : Z) : M unit :=
  HAL_ADC_Set_Sample_Time ADC_SampleTime.

(** The first statement of [analogRead]: short-form analog indices. *)
Definition analog_pin (pin : Z) : Z :=
  if pin <? FIRST_ANALOG_PIN then to_uint16 (pin + FIRST_ANALOG_PIN)
  else pin.

Definition analogRead (pin0 : Z) : M Z :=
  let pin := analog_pin pin0 in
  avail <- gets (pinAvailable pin) ;;
  if negb avail then ret LOW
  else if TOTAL_PINS <=? pin then ret LOW
  else
    e <- table pin ;;
    if bool_decide (adc_channel e = None) then ret LOW
    else HAL_ADC_Read pin.

Definition analogWrite (pin value : Z) : M unit :=
  if TOTAL_PINS <=? pin then ret tt
  else
    e <- table pin ;;
    if bool_decide (timer_peripheral e = None) then ret tt
    else
      avail <- gets (pinAvailable pin) ;;
      if negb avail then ret tt
      else
        e' <- table pin ;;
        if negb (bool_decide (pin_mode e' = OUTPUT))
           && negb (bool_decide (pin_mode e' = AF_OUTPUT_PUSHPULL))
        then ret tt
        else HAL_PWM_Write pin value.

(** *** Time base and cooperative delay *)

Definition KICK_WDT (w : World) : World :=
  with_time (hw w) (spark_loop_total_millis w) [Kick] w.

(** [system_tick_t] is [uint32_t]. *)
Definition GetSystem1MsTick (w : World) : Z * World :=
  let '(t, h) := system_1ms_tick (hw w) in
  (to_ulong t, with_time h (spark_loop_total_millis w) [Poll (to_ulong t)] w).

(** The network loop; it resets [spark_loop_total_millis] (source comment
    inside [delay]). *)
Definition SPARK_WLAN_Loop (w : World) : World :=
  with_time (wlan_loop (hw w)) 0 [Service] w.

Definition millis (w : World) : Z * World := GetSystem1MsTick w.

Definition micros (w : World) : Z * World :=
  let '(t, h) := hal_micro_seconds (hw w) in
  (to_ulong t, with_time h (spark_loop_total_millis w) [] w).

Definition delayMicroseconds (us : Z) (w : World) : World :=
  with_time (delay_microsecond us (hw w)) (spark_loop_total_millis w) [] w.

(** [do SPARK_WLAN_Loop(); while (SPARK_FLASH_UPDATE);] *)
Fixpoint wlan_service (fuel : nat) (w : World) : option World :=
  match fuel with
  | O => None
  | S f =>
      let w1 := SPARK_WLAN_Loop w in
      if flash_update (hw w1) then wlan_service f w1 else Some w1
  end.

(** The value of the [long elapsed_millis] once the wrap check is done. *)
Definition elapsed_millis (last_millis current_millis : Z) : Z :=
  let e := to_long (current_millis - last_millis) in
  if e <? 0 then to_long (last_millis + current_millis) else e.

(** [elapsed_millis >= ms]: a [long] against an [unsigned long], compared
    after the usual conversion of the [long] to [unsigned long]. *)
Definition delay_done (ms elapsed : Z) : bool := ms <=? to_ulong elapsed.

(** The [#ifdef SPARK_WLAN_ENABLE] block at the end of the loop body: the
    new [spark_loop_elapsed_millis] and the world after it. *)
Definition delay_yield (fuel : nat) (spark_loop_elapsed_millis e : Z)
    (w : World) : option (Z * World) :=
  if negb SPARK_WLAN_ENABLE then Some (spark_loop_elapsed_millis, w)
  else if negb (wlan_setup (hw w)) || wlan_sleep (hw w)
  then Some (spark_loop_elapsed_millis, w)
  else if (spark_loop_elapsed_millis <=? to_ulong e)
          || (to_ulong SPARK_LOOP_DELAY_MILLIS <=? spark_loop_total_millis w)
  then
    match wlan_service fuel w with
    | Some w' => Some (to_ulong (e + SPARK_LOOP_DELAY_MILLIS), w')
    | None => None
    end
  else Some (spark_loop_elapsed_millis, w).

(** The [while (1)] of [delay]; [None] when the fuel runs out first. *)
Fixpoint delay_loop (fuel : nat) (ms last_millis spark_loop_elapsed_millis : Z)
    (w : World) : option World :=
  match fuel with
  | O => None
  | S f =>
      let w1 := KICK_WDT w in
      let '(current_millis, w2) := GetSystem1MsTick w1 in
      let e := elapsed_millis last_millis current_millis in
      if delay_done ms e then Some w2
      else
        match delay_yield f spark_loop_elapsed_millis e w2 with
        | Some (next, w3) => delay_loop f ms last_millis next w3
        | None => None
        end
  end.

Definition delay (fuel : nat) (ms : Z) (w : World) : option World :=
  let w0 :=
    if SPARK_WLAN_ENABLE
    then with_time (hw w) (to_ulong (spark_loop_total_millis w + ms)) [] w
    else w in
  let '(last_millis, w1) := GetSystem1MsTick w0 in
  delay_loop fuel ms last_millis (to_ulong SPARK_LOOP_DELAY_MILLIS) w1.

(** *** Bit-bang helpers *)

Definition bit_position (bitOrder : BitOrder) (i : Z) : Z :=
  match bitOrder with
  | LSBFIRST => i
  | MSBFIRST => 7 - i
  end.

(** The [for] of [shiftIn], [n] iterations left from index [i]. *)
Fixpoint shiftIn_loop (n : nat) (i : Z) (dataPin clockPin : Z)
    (bitOrder : BitOrder) (value : Z) : M Z :=
  match n with
  | O => ret value
  | S n' =>
      digitalWrite clockPin HIGH ;;;
      r <- digitalRead dataPin ;;
      let value' :=
        to_uint8 (Z.lor value (Z.shiftl r (bit_position bitOrder i))) in
      digitalWrite clockPin LOW ;;;
      shiftIn_loop n' (i + 1) dataPin clockPin bitOrder value'
  end.

Definition shiftIn (dataPin clockPin : Z) (bitOrder : BitOrder) : M Z :=
  shiftIn_loop 8 0 dataPin clockPin bitOrder 0.

(** [!!(val & (1 << k))] *)
Definition bit_of (val k : Z) : Z :=
  if Z.land val (Z.shiftl 1 k) =? 0 then 0 else 1.

Fixpoint shiftOut_loop (n : nat) (i : Z) (dataPin clockPin : Z)
    (bitOrder : BitOrder) (val : Z) : M unit :=
  match n with
  | O => ret tt
  | S n' =>
      digitalWrite dataPin (bit_of val (bit_position bitOrder i)) ;;;
      digitalWrite clockPin HIGH ;;;
      digitalWrite clockPin LOW ;;;
      shiftOut_loop n' (i + 1) dataPin clockPin bitOrder val
  end.

Definition shiftOut (dataPin clockPin : Z) (bitOrder : BitOrder) (val : Z)
  : M unit :=
  shiftOut_loop 8 0 dataPin clockPin bitOrder val.

End Wiring.

Arguments Done {HW A} a w.
Arguments OutOfBounds {HW A}.

(** [long map(long, long, long, long, long)]: 32-bit arithmetic that wraps
    (what the target does; C leaves signed overflow undefined), division
    truncating toward zero, [None] for a division by zero. *)
Module LinearMap.

Definition map (value fromStart fromEnd toStart toEnd : Z) : option Z :=
  let num := to_long (to_long (value - fromStart) * to_long (toEnd - toStart)) in
  let den := to_long (fromEnd - fromStart) in
  if den =? 0 then None
  else Some (to_long (to_long (Z.quot num den) + toStart)).

End LinearMap.

(** ** A concrete board and a simulated platform

    Used to run the embedding on concrete inputs. *)

(** The pin numbering of the Spark Core header: [D0]..[D7] are 0..7,
    [A0]..[A7] are 10..17, [RX] 18, [TX] 19; [SDA] is [D0], [SCL] is [D1],
    [SCK]/[MISO]/[MOSI] are [A3]/[A4]/[A5]. *)
#[global] Instance spark_core : Board := {|
  TOTAL_PINS := 21;
  FIRST_ANALOG_PIN := 10;
  SCK := 13; MOSI := 15; MISO := 14;
  SCL := 1; SDA := 0;
  RX := 18; TX := 19;
  SPARK_WLAN_ENABLE := true;
  SPARK_LOOP_DELAY_MILLIS := 1000
|}.

(** How the simulated data pins are connected. [Wire dout din]: reading
    [din] gives the level last driven on [dout]. [ShiftRegister dout cout
    din cin]: a first-in first-out register that stores the level of [dout]
    at each rising edge of [cout] and presents the next stored level on
    [din] at each rising edge of [cin]. *)
Inductive Link : Type :=
  | NoLink
  | Wire (dout din : Z)
  | ShiftRegister (dout cout din cin : Z).

Record Bench : Type := mkBench {
  levels : list (Z * Z);
  link : Link;
  fifo : list Z;
  latched : Z;
  tick_now : Z;
  tick_step : Z;
  adc_sample : Z;
  net_setup : bool;
  net_sleep : bool
}.

Fixpoint level_of (lv : list (Z * Z)) (pin : Z) : Z :=
  match lv with
  | [] => 0
  | (p, v) :: rest => if p =? pin then v else level_of rest pin
  end.

Definition bench_gpio_write (pin value : Z) (b : Bench) : Bench :=
  let v := if value =? 0 then 0 else 1 in
  let rising := (level_of (levels b) pin =? 0) && (v =? 1) in
  let '(f, l) :=
    match link b with
    | ShiftRegister dout cout din cin =>
        let f1 := if (pin =? cout) && rising
                  then fifo b ++ [level_of (levels b) dout] else fifo b in
        if (pin =? cin) && rising then (tail f1, hd 0 f1) else (f1, latched b)
    | _ => (fifo b, latched b)
    end in
  {| levels := (pin, v) :: levels b; link := link b; fifo := f; latched := l;
     tick_now := tick_now b; tick_step := tick_step b;
     adc_sample := adc_sample b;
     net_setup := net_setup b; net_sleep := net_sleep b |}.

Definition bench_gpio_read (pin : Z) (b : Bench) : Z * Bench :=
  match link b with
  | Wire dout din =>
      (if pin =? din then level_of (levels b) dout
       else level_of (levels b) pin, b)
  | ShiftRegister dout cout din cin =>
      (if pin =? din then latched b else level_of (levels b) pin, b)
  | NoLink => (level_of (levels b) pin, b)
  end.

Definition bench_tick (b : Bench) : Z * Bench :=
  (tick_now b,
   {| levels := levels b; link := link b; fifo := fifo b;
      latched := latched b;
      tick_now := (tick_now b + tick_step b) mod 2 ^ 32;
      tick_step := tick_step b; adc_sample := adc_sample b;
      net_setup := net_setup b; net_sleep := net_sleep b |}).

#[global] Instance bench_platform : Platform Bench := {|
  hal_pin_mode := fun _ _ b => b;
  hal_gpio_write := bench_gpio_write;
  hal_gpio_read := bench_gpio_read;
  hal_adc_read := fun _ b => (adc_sample b, b);
  hal_adc_set_sample_time := fun _ b => b;
  hal_pwm_write := fun _ _ b => b;
  system_1ms_tick := bench_tick;
  hal_micro_seconds := fun b => (tick_now b * 1000, b);
  delay_microsecond := fun _ b => b;
  wlan_loop := fun b => b;
  wlan_setup := net_setup;
  wlan_sleep := net_sleep;
  flash_update := fun _ => false
|}.

Definition bench0 (l : Link) : Bench :=
  {| levels := []; link := l; fifo := []; latched := 0;
     tick_now := 0; tick_step := 1; adc_sample := 2048;
     net_setup := true; net_sleep := false |}.

Definition bench_ticking (start step : Z) : Bench :=
  {| levels := []; link := NoLink; fifo := []; latched := 0;
     tick_now := start; tick_step := step; adc_sample := 2048;
     net_setup := true; net_sleep := false |}.

(** A board table for the Spark Core: [D2], [D3], [D5] configured as
    outputs, [D4] as input, the analog pins with their ADC channels. *)
Definition core_table : list STM32_Pin_Info :=
  [ mkPin INPUT None None;            (* D0, SDA *)
    mkPin INPUT None None;            (* D1, SCL *)
    mkPin OUTPUT None None;           (* D2 *)
    mkPin OUTPUT None None;           (* D3 *)
    mkPin INPUT None None;            (* D4 *)
    mkPin OUTPUT None None;           (* D5 *)
    mkPin NONE None None;             (* D6 *)
    mkPin NONE None None;             (* D7 *)
    mkPin NONE None None;
    mkPin NONE None None;
    mkPin AN_INPUT (Some 0) (Some 2); (* A0 *)
    mkPin AN_INPUT (Some 1) (Some 2); (* A1 *)
    mkPin NONE (Some 4) None;         (* A2 *)
    mkPin NONE (Some 5) None;         (* A3, SCK *)
    mkPin NONE (Some 6) (Some 3);     (* A4, MISO *)
    mkPin NONE (Some 7) (Some 3);     (* A5, MOSI *)
    mkPin NONE (Some 8) (Some 3);     (* A6 *)
    mkPin NONE (Some 9) (Some 3);     (* A7 *)
    mkPin NONE None None;             (* RX *)
    mkPin NONE None None;             (* TX *)
    mkPin NONE None None ].

Definition core_world (spi wire serial1 : bool) (total : Z) (b : Bench)
  : World :=
  {| PIN_MAP := core_table; SPI_isEnabled := spi; Wire_isEnabled := wire;
     Serial1_isEnabled := serial1; hw := b; hal_calls := [];
     spark_loop_total_millis := total; timeline := [] |}.

Definition res_value {HW A} (d : A) (r : @Res HW A) : A :=
  match r with Done a _ => a | OutOfBounds => d end.
Definition res_world {HW A} (d : @World HW) (r : @Res HW A) : World :=
  match r with Done _ w => w | OutOfBounds => d end.

(** ** Predicates used to state the properties *)

Section Predicates.

Context {bd : Board} {HW : Type} {pf : Platform HW}.

(** The board table has exactly [TOTAL_PINS] entries (section 3). *)
Definition table_ok (w : @World HW) : Prop :=
  length (PIN_MAP w) = Z.to_nat TOTAL_PINS.

(** An enabled bus peripheral claims the pin (section 4.1). *)
Definition bus_claims (pin : Z) (w : @World HW) : Prop :=
  (SPI_isEnabled w = true /\ (pin = SCK \/ pin = MOSI \/ pin = MISO))
  \/ (Wire_isEnabled w = true /\ (pin = SCL \/ pin = SDA))
  \/ (Serial1_isEnabled w = true /\ (pin = RX \/ pin = TX)).

Definition reserved_pins : list Z := [SCK; MOSI; MISO; SCL; SDA; RX; TX].

Definition output_mode (m : PinMode) : Prop :=
  m = OUTPUT \/ m = AF_OUTPUT_PUSHPULL \/ m = AF_OUTPUT_DRAIN.

Definition input_or_none_mode (m : PinMode) : Prop :=
  m = INPUT \/ m = INPUT_PULLUP \/ m = INPUT_PULLDOWN \/ m = AN_INPUT
  \/ m = NONE.

(** The HAL calls made between two worlds. *)
Definition calls_since (w w' : @World HW) : list HalCall :=
  drop (length (hal_calls w)) (hal_calls w').

(** The levels driven on a pin, and the levels read from a pin, in call
    order. *)
Fixpoint gpio_writes (pin : Z) (calls : list HalCall) : list Z :=
  match calls with
  | [] => []
  | Call_GPIO_Write p v :: rest =>
      if p =? pin then v :: gpio_writes pin rest else gpio_writes pin rest
  | _ :: rest => gpio_writes pin rest
  end.

Fixpoint gpio_reads (pin : Z) (calls : list HalCall) : list Z :=
  match calls with
  | [] => []
  | Call_GPIO_Read p r :: rest =>
      if p =? pin then r :: gpio_reads pin rest else gpio_reads pin rest
  | _ :: rest => gpio_reads pin rest
  end.

(** The guards of [digitalWrite] and [digitalRead] all pass. *)
Definition write_guard (pin : Z) (w : @World HW) : bool :=
  (pin <? TOTAL_PINS)
  && match PIN_MAP w !! Z.to_nat pin with
     | Some e =>
         (bool_decide (pin_mode e = OUTPUT)
          || bool_decide (pin_mode e = AF_OUTPUT_PUSHPULL)
          || bool_decide (pin_mode e = AF_OUTPUT_DRAIN))
         && pinAvailable pin w
     | None => false
     end.

Definition read_guard (pin : Z) (w : @World HW) : bool :=
  (pin <? TOTAL_PINS)
  && match PIN_MAP w !! Z.to_nat pin with
     | Some e =>
         negb (bool_decide (pin_mode e = NONE)
               || bool_decide (pin_mode e = AF_OUTPUT_PUSHPULL)
               || bool_decide (pin_mode e = AF_OUTPUT_DRAIN))
         && pinAvailable pin w
     | None => false
     end.

(** The wrap-corrected elapsed time in the words of the spec (section
    4.3): [current - start] in native-width arithmetic; when that reads
    as a negative number, [start + current] instead. *)
Definition wrap_corrected_elapsed (start current : Z) : Z :=
  let diff := to_long (current - start) in
  if diff <? 0 then to_ulong (start + current) else diff.

(** Ticks between two readings of the 32-bit counter. *)
Definition ticks_since (start current : Z) : Z := to_ulong (current - start).

Definition is_service (ev : TimeEvent) : bool :=
  match ev with Service => true | _ => false end.

(** The board table and the bus flags are the same in two worlds. *)
Definition same_config (w w' : @World HW) : Prop :=
  PIN_MAP w' = PIN_MAP w
  /\ SPI_isEnabled w' = SPI_isEnabled w
  /\ Wire_isEnabled w' = Wire_isEnabled w
  /\ Serial1_isEnabled w' = Serial1_isEnabled w.

(** A network service call is due on entry of [delay] (section 4.3). *)
Definition service_due (w : @World HW) : Prop :=
  SPARK_WLAN_ENABLE = true /\ wlan_setup (hw w) = true
  /\ wlan_sleep (hw w) = false
  /\ SPARK_LOOP_DELAY_MILLIS <= spark_loop_total_millis w.

End Predicates.

(** The byte [shiftIn] builds from the levels it samples, in the words of
    the spec (section 4.4): the [k]-th sample is bit [k], or bit [7 - k]. *)
Fixpoint assemble (bitOrder : BitOrder) (i : Z) (value : Z) (samples : list Z)
  : Z :=
  match samples with
  | [] => value
  | r :: rest =>
      assemble bitOrder (i + 1)
        (to_uint8 (Z.lor value (Z.shiftl r (bit_position bitOrder i)))) rest
  end.

(** The levels [shiftOut] drives on its data pin, in the order it drives
    them: [n] of them from index [i]. *)
Fixpoint bits_from (bitOrder : BitOrder) (val : Z) (i : Z) (n : nat) : list Z :=
  match n with
  | O => []
  | S n' =>
      bit_of val (bit_position bitOrder i) :: bits_from bitOrder val (i + 1) n'
  end.

Definition emitted_bits (bitOrder : BitOrder) (val : Z) : list Z :=
  bits_from bitOrder val 0 8.

(** The formula of the spec for [map], over the integers. *)
Definition linear_map_formula (x inLo inHi outLo outHi : Z) : Z :=
  Z.quot ((x - inLo) * (outHi - outLo)) (inHi - inLo) + outLo.

(** Sample worlds on the Spark Core. *)
Definition idle_world : World :=
  core_world false false false 0 (bench0 NoLink).
Definition i2c_world : World :=
  core_world false true false 0 (bench0 NoLink).
Definition wire_world : World :=
  core_world false false false 0 (bench0 (Wire 2 4)).
Definition register_world : World :=
  core_world false false false 0 (bench0 (ShiftRegister 2 3 4 5)).
Definition long_delay_world : World :=
  core_world false false false 0 (bench_ticking (2 ^ 29) (2 ^ 28)).
Definition due_world : World :=
  core_world false false false 1000 (bench_ticking 5 1).

(** ** Further predicates: the guards of the other operations *)

Section Guards.

Context {bd : Board} {HW : Type} {pf : Platform HW}.

(** The guards of [pinMode] all pass. *)
Definition config_guard (pin : Z) (setMode : PinMode) (w : @World HW) : bool :=
  (pin <? TOTAL_PINS) && negb (bool_decide (setMode = NONE))
  && pinAvailable pin w.

(** The guards of [analogRead] all pass, for the pin after the remapping. *)
Definition adc_guard (pin : Z) (w : @World HW) : bool :=
  pinAvailable pin w && (pin <? TOTAL_PINS)
  && match PIN_MAP w !! Z.to_nat pin with
     | Some e => negb (bool_decide (adc_channel e = None))
     | None => false
     end.

(** The guards of [analogWrite] all pass. *)
Definition pwm_guard (pin : Z) (w : @World HW) : bool :=
  (pin <? TOTAL_PINS)
  && match PIN_MAP w !! Z.to_nat pin with
     | Some e =>
         negb (bool_decide (timer_peripheral e = None))
         && pinAvailable pin w
         && (bool_decide (pin_mode e = OUTPUT)
             || bool_decide (pin_mode e = AF_OUTPUT_PUSHPULL))
     | None => false
     end.

(** The pin a HAL call acts on. *)
Definition call_pin (c : HalCall) : option Z :=
  match c with
  | Call_Pin_Mode p _ | Call_GPIO_Write p _ | Call_GPIO_Read p _
  | Call_ADC_Read p _ | Call_PWM_Write p _ => Some p
  | Call_ADC_Set_Sample_Time _ => None
  end.

(** The call acts on a pin of the board that no enabled bus claims. *)
Definition on_free_pin (w : @World HW) (c : HalCall) : Prop :=
  match call_pin c with
  | Some p => p < TOTAL_PINS /\ pinAvailable p w = true
  | None => True
  end.

(** The same world with the mode of one table entry changed. *)
Definition with_mode (i : nat) (m : PinMode) (w : @World HW) : World :=
  with_table (alter (set_pin_mode m) i (PIN_MAP w)) w.

(** The calls one iteration of [shiftOut] makes, by what the guards let
    through. *)
Definition shiftOut_step_calls (gd gc : bool) (dataPin clockPin bit : Z)
  : list HalCall :=
  (if gd then [Call_GPIO_Write dataPin bit] else [])
  ++ (if gc then [Call_GPIO_Write clockPin HIGH; Call_GPIO_Write clockPin LOW]
      else []).

Fixpoint shiftOut_calls (gd gc : bool) (dataPin clockPin : Z)
    (bits : list Z) : list HalCall :=
  match bits with
  | [] => []
  | b :: rest =>
      shiftOut_step_calls gd gc dataPin clockPin b
      ++ shiftOut_calls gd gc dataPin clockPin rest
  end.

(** The calls of [shiftIn] on a readable data pin and a writable clock, by
    the levels sampled. *)
Fixpoint shiftIn_calls (dataPin clockPin : Z) (samples : list Z)
  : list HalCall :=
  match samples with
  | [] => []
  | r :: rest =>
      [Call_GPIO_Write clockPin HIGH; Call_GPIO_Read dataPin r;
       Call_GPIO_Write clockPin LOW]
      ++ shiftIn_calls dataPin clockPin rest
  end.

End Guards.

Fixpoint count_kicks (evs : list TimeEvent) : nat :=
  match evs with
  | [] => O
  | Kick :: rest => S (count_kicks rest)
  | _ :: rest => count_kicks rest
  end.

Fixpoint count_polls (evs : list TimeEvent) : nat :=
  match evs with
  | [] => O
  | Poll _ :: rest => S (count_polls rest)
  | _ :: rest => count_polls rest
  end.

Fixpoint count_services (evs : list TimeEvent) : nat :=
  match evs with
  | [] => O
  | Service :: rest => S (count_services rest)
  | _ :: rest => count_services rest
  end.

(** The events of the timeline since an earlier world. *)
Definition events_since {HW} (w w' : @World HW) : list TimeEvent :=
  drop (length (timeline w)) (timeline w').

(** A world whose counter starts just below the wrap of the 32-bit tick. *)
Definition wrap_world : World :=
  core_world false false false 0 (bench_ticking (2 ^ 32 - 2) 1).

(** A platform that is only a millisecond counter: each poll reads the
    counter and advances it by one; the network is set up and awake and no
    firmware update is running. *)
Definition counter_platform : Platform Z := {|
  hal_pin_mode := fun _ _ t => t;
  hal_gpio_write := fun _ _ t => t;
  hal_gpio_read := fun _ t => (0, t);
  hal_adc_read := fun _ t => (0, t);
  hal_adc_set_sample_time := fun _ t => t;
  hal_pwm_write := fun _ _ t => t;
  system_1ms_tick := fun t => (t, t + 1);
  hal_micro_seconds := fun t => (t * 1000, t);
  delay_microsecond := fun _ t => t;
  wlan_loop := fun t => t;
  wlan_setup := fun _ => true;
  wlan_sleep := fun _ => false;
  flash_update := fun _ => false
|}.

Definition counter_world (t : Z) : @World Z :=
  {| PIN_MAP := core_table; SPI_isEnabled := false; Wire_isEnabled := false;
     Serial1_isEnabled := false; hw := t; hal_calls := [];
     spark_loop_total_millis := 0; timeline := [] |}.

(** The Spark Core built without the network loop. *)
Definition spark_core_offline : Board := {|
  TOTAL_PINS := 21;
  FIRST_ANALOG_PIN := 10;
  SCK := 13; MOSI := 15; MISO := 14;
  SCL := 1; SDA := 0;
  RX := 18; TX := 19;
  SPARK_WLAN_ENABLE := false;
  SPARK_LOOP_DELAY_MILLIS := 1000
|}.

(** A poll of the loop at which [delay] goes on waiting: the elapsed time
    computed from the reading [start] is still below [ms]. *)
Definition poll_before_exit (start ms : Z) (ev : TimeEvent) : Prop :=
  match ev with
  | Poll c => wrap_corrected_elapsed start c < ms
  | _ => True
  end.

(** Every poll comes right after a watchdog kick and every kick is followed
    at once by a poll; service events may stand between the rounds. *)
Fixpoint kicked_polls (evs : list TimeEvent) : bool :=
  match evs with
  | [] => true
  | Kick :: Poll _ :: rest => kicked_polls rest
  | Service :: rest => kicked_polls rest
  | _ => false
  end.

(** ** Proof steps shared by the operations *)

Lemma if_apply {A B} (c : bool) (f g : A -> B) (x : A) :
  (if c then f else g) x = if c then f x else g x.
Proof. by destruct c. Qed.

Ltac push_state := repeat (rewrite if_apply; cbv beta).

Ltac run_op :=
  unfold pinMode, digitalWrite, digitalRead, analogRead, analogWrite,
    bind, ret, gets, table, HAL_Pin_Mode, HAL_GPIO_Write, HAL_GPIO_Read,
    HAL_ADC_Read, HAL_PWM_Write;
  try unfold M; push_state.

Lemma Done_inj {HW A} (a a' : A) (w w' : @World HW) :
  Done a w = Done a' w' -> a = a' /\ w = w'.
Proof. by intros [= -> ->]. Qed.

Lemma bind_Done_inv {HW A B} (m : @M HW A) (k : A -> @M HW B) w b w2 :
  bind m k w = Done b w2 ->
  exists a w1, m w = Done a w1 /\ k a w1 = Done b w2.
Proof.
  unfold bind. destruct (m w) as [a w1|]; [|done]. intros H. by exists a, w1.
Qed.

(** ** Pin arbitration and the guards of the pin operations *)

Section PinProperties.

Context {bd : Board} {HW : Type} {pf : Platform HW}.
Implicit Types (w : @World HW) (pin : Z).

Lemma pinAvailable_false_iff pin w :
  pinAvailable pin w = false <-> bus_claims pin w.
Proof.
  unfold pinAvailable, bus_claims.
  assert (Hspi : (pin =? SCK) || (pin =? MOSI) || (pin =? MISO) = true
                 <-> pin = SCK \/ pin = MOSI \/ pin = MISO)
    by (rewrite !orb_true_iff, !Z.eqb_eq; tauto).
  assert (Hi2c : (pin =? SCL) || (pin =? SDA) = true
                 <-> pin = SCL \/ pin = SDA)
    by (rewrite !orb_true_iff, !Z.eqb_eq; tauto).
  assert (Hser : (pin =? RX) || (pin =? TX) = true
                 <-> pin = RX \/ pin = TX)
    by (rewrite !orb_true_iff, !Z.eqb_eq; tauto).
  rewrite <- Hspi, <- Hi2c, <- Hser, <- !andb_true_iff, <- !orb_true_iff.
  destruct (SPI_isEnabled w), (Wire_isEnabled w), (Serial1_isEnabled w),
    ((pin =? SCK) || (pin =? MOSI) || (pin =? MISO)),
    ((pin =? SCL) || (pin =? SDA)), ((pin =? RX) || (pin =? TX));
    simpl; split; congruence.
Qed.

Lemma table_lookup w pin :
  table_ok w -> 0 <= pin < TOTAL_PINS ->
  exists e, PIN_MAP w !! Z.to_nat pin = Some e.
Proof.
  intros Hok Hr. apply lookup_lt_is_Some. rewrite Hok. lia.
Qed.

(** The model of the table is partial: an index at or beyond [TOTAL_PINS]
    is an error, so the order of the tests in the operations matters. *)
Lemma table_out_of_range w pin :
  table_ok w -> 0 <= TOTAL_PINS <= pin -> table pin w = OutOfBounds.
Proof.
  intros Hok Hr. unfold table.
  rewrite (proj2 (lookup_ge_None (PIN_MAP w) (Z.to_nat pin))); [done|].
  rewrite Hok. lia.
Qed.

(** C10: [pinAvailable] does no range validation. A pin that is none of
    the seven reserved bus pins is available, whatever its value (also at
    or beyond [TOTAL_PINS]); the answer is [false] exactly for a reserved
    pin whose bus is enabled. *)
Theorem pinAvailable_no_range_check pin w :
  (pin ∉ reserved_pins -> pinAvailable pin w = true)
  /\ (pinAvailable pin w = false <-> bus_claims pin w).
Proof.
  split; [| apply pinAvailable_false_iff].
  intros Hn. destruct (pinAvailable pin w) eqn:E; [done|].
  apply pinAvailable_false_iff in E. exfalso. apply Hn.
  unfold reserved_pins. rewrite !elem_of_cons.
  unfold bus_claims in E. tauto.
Qed.

Lemma out_of_range_noop w pin :
  TOTAL_PINS <= pin ->
  (forall m, pinMode pin m w = Done tt w)
  /\ (forall v, digitalWrite pin v w = Done tt w)
  /\ digitalRead pin w = Done LOW w
  /\ (forall v, analogWrite pin v w = Done tt w)
  /\ (forall p, analog_pin p = pin -> analogRead p w = Done LOW w).
Proof.
  intros Hr. apply Z.leb_le in Hr.
  repeat split; intros; run_op; subst; rewrite ?Hr; simpl; try done.
  by destruct (negb (pinAvailable (analog_pin p) w)).
Qed.

(** C4: range guard. For a pin at or beyond [TOTAL_PINS] no operation
    calls the HAL (the world is unchanged) and the reads return [LOW];
    [analogRead] tests the index after the short-form remapping. *)
Theorem range_guard w pin :
  TOTAL_PINS <= pin ->
  (forall m, pinMode pin m w = Done tt w)
  /\ (forall v, digitalWrite pin v w = Done tt w)
  /\ digitalRead pin w = Done LOW w
  /\ (forall v, analogWrite pin v w = Done tt w)
  /\ (forall p, analog_pin p = pin -> analogRead p w = Done LOW w).
Proof. apply out_of_range_noop. Qed.

(** C1, as amended: arbitration. When an enabled bus claims the pin, no
    operation calls the HAL: the writes and [pinMode] leave the world
    unchanged and the reads return [LOW]. For [analogRead] the pin tested
    is the one after the short-form remapping. *)
Theorem arbitration_guard w pin :
  table_ok w -> 0 <= pin -> bus_claims pin w ->
  (forall m, pinMode pin m w = Done tt w)
  /\ (forall v, digitalWrite pin v w = Done tt w)
  /\ digitalRead pin w = Done LOW w
  /\ (forall v, analogWrite pin v w = Done tt w)
  /\ (forall p, analog_pin p = pin -> analogRead p w = Done LOW w).
Proof.
  intros Hok Hpos Hc. apply pinAvailable_false_iff in Hc.
  destruct (Z.leb_spec TOTAL_PINS pin) as [Hge|Hlt].
  { by apply out_of_range_noop. }
  destruct (table_lookup w pin Hok) as [e He]; [lia|].
  apply Z.leb_gt in Hlt.
  repeat split; intros; run_op; subst; rewrite ?Hlt, ?He, ?Hc; simpl;
    push_state; rewrite ?He, ?Hc; simpl; try done; by case_match.
Qed.

(** C5: write-mode guard. [digitalWrite] calls the HAL only for an
    in-range, available pin whose mode is [OUTPUT] or an alternate
    output mode; on a pin in an input mode or in mode [NONE] the call
    changes nothing. *)
Theorem digitalWrite_mode_guard w pin v :
  (forall w', digitalWrite pin v w = Done tt w' ->
              hal_calls w' <> hal_calls w ->
              pin < TOTAL_PINS /\ pinAvailable pin w = true
              /\ exists e, PIN_MAP w !! Z.to_nat pin = Some e
                           /\ output_mode (pin_mode e))
  /\ (forall e, PIN_MAP w !! Z.to_nat pin = Some e ->
                input_or_none_mode (pin_mode e) ->
                digitalWrite pin v w = Done tt w).
Proof.
  split.
  - intros w'. run_op.
    destruct (Z.leb_spec TOTAL_PINS pin); [by intros [= ->]|].
    destruct (PIN_MAP w !! Z.to_nat pin) as [e|]; [|done].
    push_state.
    destruct (pinAvailable pin w); destruct e as [[] ? ?]; simpl;
      intros [= Hw] Hne; subst w'; try done;
      (split; [lia|]; split; [done|]; eexists; split; [done|]);
      unfold output_mode; simpl; auto.
  - intros e He Hm. run_op. rewrite He.
    destruct (TOTAL_PINS <=? pin); [done|].
    destruct Hm as [->|[->|[->|[->| ->]]]]; done.
Qed.

(** C9: the board table is never indexed out of bounds. With a table of
    [TOTAL_PINS] entries every operation returns, for every pin (in range
    or not), and leaves a table of the same size. *)
Theorem table_access_in_bounds w pin v m :
  table_ok w -> 0 <= pin ->
  (exists w', pinMode pin m w = Done tt w' /\ table_ok w')
  /\ (exists w', digitalWrite pin v w = Done tt w' /\ table_ok w')
  /\ (exists r w', digitalRead pin w = Done r w' /\ table_ok w')
  /\ (exists r w', analogRead pin w = Done r w' /\ table_ok w')
  /\ (exists w', analogWrite pin v w = Done tt w' /\ table_ok w').
Proof.
  intros Hok Hpos.
  assert (Ha : 0 <= analog_pin pin).
  { unfold analog_pin, to_uint16. case_match; [|done].
    apply Z.mod_pos_bound. lia. }
  assert (Hl : forall q, 0 <= q -> (TOTAL_PINS <=? q) = false ->
                         exists e, PIN_MAP w !! Z.to_nat q = Some e).
  { intros q Hq Hlt. apply Z.leb_gt in Hlt. apply table_lookup; [done|lia]. }
  repeat split; run_op.
  - destruct ((TOTAL_PINS <=? pin) || bool_decide (m = NONE)); [by eexists|].
    destruct (negb (pinAvailable pin w)); [by eexists|].
    eexists; split; [done|]. unfold table_ok in *. simpl.
    by rewrite length_alter.
  - destruct (TOTAL_PINS <=? pin) eqn:E; [by eexists|].
    destruct (Hl pin Hpos E) as [e ->]. push_state.
    repeat case_match; by eexists.
  - destruct (TOTAL_PINS <=? pin) eqn:E; [by do 2 eexists|].
    destruct (Hl pin Hpos E) as [e ->]. push_state.
    repeat case_match; simplify_eq; by do 2 eexists.
  - destruct (negb (pinAvailable (analog_pin pin) w)); [by do 2 eexists|].
    destruct (TOTAL_PINS <=? analog_pin pin) eqn:E; [by do 2 eexists|].
    destruct (Hl _ Ha E) as [e ->]. push_state.
    repeat case_match; simplify_eq; by do 2 eexists.
  - destruct (TOTAL_PINS <=? pin) eqn:E; [by eexists|].
    destruct (Hl pin Hpos E) as [e ->]. push_state.
    destruct (bool_decide (timer_peripheral e = None)); [by eexists|].
    destruct (negb (pinAvailable pin w)); [by eexists|].
    destruct (Hl pin Hpos E) as [e' ->]. push_state.
    repeat case_match; by eexists.
Qed.

End PinProperties.

(** *** The pin properties on the Spark Core *)

Lemma range_guard_witness :
  TOTAL_PINS <= 21
  /\ digitalRead 21 idle_world = Done LOW idle_world
  /\ (forall p, analog_pin p = 21 -> analogRead p idle_world = Done LOW idle_world).
Proof.
  assert (H : TOTAL_PINS <= 21) by (simpl; lia).
  destruct (range_guard idle_world 21 H) as (_ & _ & Hr & _ & Ha).
  split; [exact H | split; [exact Hr | exact Ha]].
Defined.

Lemma arbitration_guard_witness :
  table_ok i2c_world /\ 0 <= SDA /\ bus_claims SDA i2c_world
  /\ digitalRead SDA i2c_world = Done LOW i2c_world
  /\ (forall v, digitalWrite SDA v i2c_world = Done tt i2c_world).
Proof.
  assert (H1 : table_ok i2c_world) by reflexivity.
  assert (H2 : 0 <= SDA) by (simpl; lia).
  assert (H3 : bus_claims SDA i2c_world).
  { right; left. split; [reflexivity | right; reflexivity]. }
  destruct (arbitration_guard i2c_world SDA H1 H2 H3) as (_ & Hw & Hr & _).
  repeat split; assumption.
Defined.

(** C1, as stated, fails for [analogRead]: on the Spark Core [SDA] is pin 0,
    below [FIRST_ANALOG_PIN]; with I2C enabled [analogRead(0)] is remapped
    to pin 10 ([A0]), which no bus claims, and the HAL is asked for a
    sample that the call returns. *)
Lemma analogRead_short_form_ignores_bus_claim :
  bus_claims SDA i2c_world
  /\ exists w', analogRead SDA i2c_world = Done 2048 w'
                /\ hal_calls w' = hal_calls i2c_world ++ [Call_ADC_Read 10 2048].
Proof.
  split.
  - right; left. split; [reflexivity | right; reflexivity].
  - eexists. split; reflexivity.
Qed.

Lemma pinAvailable_no_range_check_witness :
  let w := core_world true true true 0 (bench0 NoLink) in
  (40000 ∉ reserved_pins)
  /\ pinAvailable 40000 w = true
  /\ (pinAvailable TX w = false <-> bus_claims TX w).
Proof.
  intros w.
  assert (H : 40000 ∉ reserved_pins).
  { unfold reserved_pins. rewrite !elem_of_cons, elem_of_nil. simpl. lia. }
  destruct (pinAvailable_no_range_check 40000 w) as [Ha _].
  destruct (pinAvailable_no_range_check TX w) as [_ Hb].
  split; [exact H | split; [exact (Ha H) | exact Hb]].
Defined.

Lemma digitalWrite_mode_guard_witness :
  let w := idle_world in
  let w' := res_world w (digitalWrite 2 HIGH w) in
  digitalWrite 2 HIGH w = Done tt w'
  /\ hal_calls w' <> hal_calls w
  /\ (2 < TOTAL_PINS /\ pinAvailable 2 w = true
      /\ exists e, PIN_MAP w !! Z.to_nat 2 = Some e /\ output_mode (pin_mode e))
  /\ digitalWrite 4 HIGH w = Done tt w.
Proof.
  intros w w'.
  assert (H1 : digitalWrite 2 HIGH w = Done tt w') by (vm_compute; reflexivity).
  assert (H2 : hal_calls w' <> hal_calls w) by (vm_compute; congruence).
  assert (H3 : PIN_MAP w !! Z.to_nat 4 = Some (mkPin INPUT None None))
    by (vm_compute; reflexivity).
  assert (H4 : input_or_none_mode (pin_mode (mkPin INPUT None None)))
    by (left; reflexivity).
  destruct (digitalWrite_mode_guard w 2 HIGH) as [Hon _].
  destruct (digitalWrite_mode_guard w 4 HIGH) as [_ Hoff].
  split; [exact H1 | split; [exact H2 | split]].
  - exact (Hon w' H1 H2).
  - exact (Hoff _ H3 H4).
Defined.

Lemma table_access_in_bounds_witness :
  table_ok idle_world /\ 0 <= 65535
  /\ (exists w', digitalWrite 65535 HIGH idle_world = Done tt w' /\ table_ok w')
  /\ (exists r w', analogRead 65535 idle_world = Done r w' /\ table_ok w').
Proof.
  assert (H1 : table_ok idle_world) by reflexivity.
  assert (H2 : 0 <= 65535) by lia.
  destruct (table_access_in_bounds idle_world 65535 HIGH OUTPUT H1 H2)
    as (_ & Hw & _ & Ha & _).
  repeat split; assumption.
Defined.

(** ** Facts on the machine integers *)

Section MachineFacts.

Lemma to_ulong_range x : 0 <= to_ulong x < 2 ^ 32.
Proof. unfold to_ulong. apply Z.mod_pos_bound. lia. Qed.

Lemma to_long_range x : - 2 ^ 31 <= to_long x < 2 ^ 31.
Proof.
  unfold to_long. pose proof (to_ulong_range x) as H. unfold to_ulong in H.
  simpl. case_match; lia.
Qed.

Lemma to_ulong_to_long x : to_ulong (to_long x) = to_ulong x.
Proof.
  unfold to_long, to_ulong. simpl. case_match.
  - apply Zmod_mod.
  - replace (x mod 2 ^ 32 - 2 ^ 32) with (x mod 2 ^ 32 + (-1) * 2 ^ 32)
      by lia.
    rewrite Z_mod_plus_full. apply Zmod_mod.
Qed.

Lemma to_long_small x : - 2 ^ 31 <= x < 2 ^ 31 -> to_long x = x.
Proof.
  intros Hx. unfold to_long. simpl.
  destruct (Z.le_gt_cases 0 x) as [Hp|Hn].
  - rewrite Z.mod_small by lia. case_match; lia.
  - assert (Hm : x mod 2 ^ 32 = x + 2 ^ 32).
    { symmetry. apply (Z.mod_unique x (2 ^ 32) (-1)); lia. }
    rewrite Hm. case_match; lia.
Qed.

Lemma to_long_zero_iff x : to_long x = 0 -> x mod 2 ^ 32 = 0.
Proof.
  unfold to_long. pose proof (Z.mod_pos_bound x (2 ^ 32)).
  simpl. case_match; lia.
Qed.

Lemma to_long_mod x : to_long x mod 2 ^ 32 = x mod 2 ^ 32.
Proof.
  unfold to_long. simpl. case_match.
  - apply Zmod_mod.
  - replace (x mod 2 ^ 32 - 2 ^ 32) with (x mod 2 ^ 32 + (-1) * 2 ^ 32)
      by lia.
    rewrite Z_mod_plus_full. apply Zmod_mod.
Qed.

Lemma to_long_add_l a b : to_long (to_long a + b) = to_long (a + b).
Proof.
  unfold to_long at 1 3. simpl.
  by rewrite Zplus_mod, to_long_mod, <- Zplus_mod.
Qed.

End MachineFacts.

(** ** The cooperative delay *)

Section DelayProperties.

Context {bd : Board} {HW : Type} {pf : Platform HW}.
Implicit Types (w : @World HW) (ms last cur : Z).

(** The unsigned reading of the [long elapsed_millis] is the elapsed time
    of the spec. *)
Lemma elapsed_millis_unsigned last cur :
  to_ulong (elapsed_millis last cur) = wrap_corrected_elapsed last cur.
Proof.
  unfold elapsed_millis, wrap_corrected_elapsed. simpl.
  pose proof (to_long_range (cur - last)) as Hr.
  case_match.
  - apply to_ulong_to_long.
  - unfold to_ulong. apply Z.mod_small. lia.
Qed.

(** Without a wrap and below [2 ^ 31] ticks the elapsed time is the plain
    difference. *)
Lemma wrap_corrected_elapsed_plain last cur :
  0 <= cur - last < 2 ^ 31 -> wrap_corrected_elapsed last cur = cur - last.
Proof.
  intros H. unfold wrap_corrected_elapsed. simpl.
  rewrite to_long_small by lia. case_match; lia.
Qed.

Lemma GetSystem1MsTick_timeline w t w' :
  GetSystem1MsTick w = (t, w') ->
  timeline w' = timeline w ++ [Poll t] /\ 0 <= t < 2 ^ 32.
Proof.
  unfold GetSystem1MsTick. destruct (system_1ms_tick (hw w)) as [r h].
  intros [= <- <-]. split; [done | apply to_ulong_range].
Qed.

Lemma delay_done_zero e : delay_done 0 e = true.
Proof.
  unfold delay_done. pose proof (to_ulong_range e). apply Z.leb_le. lia.
Qed.

(** One iteration of the loop, for any reading [last]: it exits when the
    elapsed time of the spec has reached [ms], and otherwise goes on to the
    network step and the next iteration. *)
Lemma delay_loop_iteration (fuel : nat) ms last next w :
  let cur := (GetSystem1MsTick (KICK_WDT w)).1 in
  let w2 := (GetSystem1MsTick (KICK_WDT w)).2 in
  delay_loop (S fuel) ms last next w =
    if ms <=? wrap_corrected_elapsed last cur then Some w2
    else match delay_yield fuel next (elapsed_millis last cur) w2 with
         | Some (next', w3) => delay_loop fuel ms last next' w3
         | None => None
         end.
Proof.
  intros cur w2.
  simpl. subst cur w2. destruct (GetSystem1MsTick (KICK_WDT w)) as [c v].
  simpl. unfold delay_done. by rewrite elapsed_millis_unsigned.
Qed.

(** C8, as amended: [delay(0)] kicks the watchdog once and returns at the
    first poll of the loop; the network service routine is not called,
    whether a call is due or not. *)
Theorem delay_zero_returns_at_first_poll (fuel : nat) w :
  exists start cur w',
    delay (S fuel) 0 w = Some w'
    /\ timeline w' = timeline w ++ [Poll start; Kick; Poll cur].
Proof.
  unfold delay.
  set (w0 := if SPARK_WLAN_ENABLE then _ else w).
  assert (H0 : timeline w0 = timeline w).
  { subst w0. destruct SPARK_WLAN_ENABLE; simpl; by rewrite ?app_nil_r. }
  destruct (GetSystem1MsTick w0) as [start w1] eqn:E1.
  apply GetSystem1MsTick_timeline in E1 as [E1 _].
  simpl. destruct (GetSystem1MsTick (KICK_WDT w1)) as [cur w2] eqn:E2.
  apply GetSystem1MsTick_timeline in E2 as [E2 _].
  rewrite delay_done_zero. exists start, cur, w2. split; [done|].
  rewrite E2. simpl. rewrite E1, H0. by rewrite <- !app_assoc.
Qed.

(** *** Where the lower bound of [delay] holds *)

Lemma wlan_service_timeline (fuel : nat) w w' :
  wlan_service fuel w = Some w' ->
  exists evs, timeline w' = timeline w ++ evs.
Proof.
  revert w. induction fuel as [|f IH]; intros w; simpl; [done|].
  destruct (flash_update _).
  - intros H. apply IH in H as [evs ->]. simpl.
    rewrite <- app_assoc. by eexists.
  - intros [= <-]. simpl. by eexists.
Qed.

Lemma delay_yield_timeline (fuel : nat) next e w next' w' :
  delay_yield fuel next e w = Some (next', w') ->
  exists evs, timeline w' = timeline w ++ evs.
Proof.
  unfold delay_yield.
  repeat case_match; intros [= <- <-]; simplify_eq;
    try (exists []; by rewrite app_nil_r).
  by eapply wlan_service_timeline.
Qed.

(** The loop returns at a poll whose exit test holds. *)
Lemma delay_loop_exit (fuel : nat) ms last next w w' :
  delay_loop fuel ms last next w = Some w' ->
  exists evs cur,
    timeline w' = timeline w ++ evs ++ [Poll cur]
    /\ delay_done ms (elapsed_millis last cur) = true.
Proof.
  revert next w. induction fuel as [|f IH]; intros next w; simpl; [done|].
  destruct (GetSystem1MsTick (KICK_WDT w)) as [cur w2] eqn:E.
  apply GetSystem1MsTick_timeline in E as [E _]. simpl in E.
  destruct (delay_done ms (elapsed_millis last cur)) eqn:Hd.
  - intros [= <-]. exists [Kick], cur. by rewrite E, <- app_assoc.
  - destruct (delay_yield f next (elapsed_millis last cur) w2)
      as [[next' w3]|] eqn:Hy; [|done].
    apply delay_yield_timeline in Hy as [evs Hy].
    intros H. apply IH in H as (evs' & cur' & -> & Hd').
    exists ([Kick; Poll cur] ++ evs ++ evs'), cur'. split; [|done].
    rewrite Hy, E. by rewrite <- !app_assoc.
Qed.

(** Up to [2 ^ 31] ms the exit test implies that [ms] ticks have gone
    by, whatever the tick source does. *)
Lemma exit_test_lower_bound ms last cur :
  ms <= 2 ^ 31 ->
  delay_done ms (elapsed_millis last cur) = true ->
  ms <= ticks_since last cur.
Proof.
  intros Hms. unfold delay_done. rewrite elapsed_millis_unsigned.
  unfold wrap_corrected_elapsed, ticks_since, to_long, to_ulong. simpl.
  pose proof (Z.mod_pos_bound (cur - last) (2 ^ 32)).
  repeat case_match; lia.
Qed.

Lemma delay_lower_bound (fuel : nat) ms w w' :
  ms <= 2 ^ 31 ->
  delay fuel ms w = Some w' ->
  exists start evs cur,
    timeline w' = timeline w ++ Poll start :: evs ++ [Poll cur]
    /\ ms <= ticks_since start cur.
Proof.
  intros Hms. unfold delay.
  set (w0 := if SPARK_WLAN_ENABLE then _ else w).
  assert (H0 : timeline w0 = timeline w).
  { subst w0. destruct SPARK_WLAN_ENABLE; simpl; by rewrite ?app_nil_r. }
  destruct (GetSystem1MsTick w0) as [start w1] eqn:E1.
  apply GetSystem1MsTick_timeline in E1 as [E1 _].
  intros H. apply delay_loop_exit in H as (evs & cur & -> & Hd).
  exists start, evs, cur. split.
  - rewrite E1, H0. by rewrite <- app_assoc.
  - by apply exit_test_lower_bound.
Qed.

End DelayProperties.

(** C8, as stated, fails: a service call is due ([spark_loop_total_millis]
    has reached [SPARK_LOOP_DELAY_MILLIS], the network is set up and awake),
    and [delay(0)] returns after one watchdog kick without calling the
    network loop. *)
Lemma delay_zero_skips_due_service :
  service_due due_world
  /\ exists w', delay 8 0 due_world = Some w'
                /\ timeline w' = [Poll 5; Kick; Poll 6]
                /\ forallb (fun ev => negb (is_service ev)) (timeline w') = true.
Proof.
  split.
  - repeat split; simpl; lia.
  - eexists. split; [vm_compute; reflexivity|]. split; reflexivity.
Qed.

(** C2 fails on the code. [delay(3000000000)] entered when the counter
    reads [2 ^ 29]: at the poll where [2 ^ 31] ticks have gone by the signed
    difference is negative, the wrap check replaces it by [start + current]
    = 3221225472, and the loop exits 852516352 ticks early. *)
Theorem delay_returns_early :
  delay_done 3000000000 (elapsed_millis 536870912 (536870912 + 2147483648))
    = true
  /\ ticks_since 536870912 (536870912 + 2147483648) = 2147483648
  /\ 2147483648 < 3000000000
  /\ exists w', delay 16 3000000000 long_delay_world = Some w'
                /\ head (timeline w') = Some (Poll 536870912)
                /\ last (timeline w') = Some (Poll 2684354560).
Proof.
  split; [vm_compute; reflexivity|].
  split; [vm_compute; reflexivity|].
  split; [reflexivity|].
  eexists. split; [vm_compute; reflexivity|]. split; reflexivity.
Qed.

(** ** The linear map *)

Section MapProperties.

(** Two different [long]s have a non-zero 32-bit difference. *)
Lemma long_difference_nonzero a b :
  is_long a -> is_long b -> a <> b -> to_long (b - a) <> 0.
Proof.
  unfold is_long. intros Ha Hb Hne Hz. apply to_long_zero_iff in Hz.
  apply Z.mod_divide in Hz; [|lia]. destruct Hz as [q Hq]. lia.
Qed.

Lemma map_exact x inLo inHi outLo outHi :
  inLo <> inHi ->
  is_long (x - inLo) -> is_long (outHi - outLo) ->
  is_long ((x - inLo) * (outHi - outLo)) -> is_long (inHi - inLo) ->
  LinearMap.map x inLo inHi outLo outHi
  = Some (to_long (linear_map_formula x inLo inHi outLo outHi)).
Proof.
  unfold is_long, LinearMap.map, linear_map_formula.
  intros Hne H1 H2 H3 H4.
  rewrite (to_long_small (x - inLo)), (to_long_small (outHi - outLo)),
    (to_long_small (inHi - inLo)), (to_long_small (_ * _)) by lia.
  destruct (Z.eqb_spec (inHi - inLo) 0); [lia|].
  by rewrite to_long_add_l.
Qed.

(** C7, as amended: [map] is the formula of the spec, with a division
    that truncates toward zero, whenever no intermediate value leaves the
    range of [long]; for a non-degenerate input range it maps [inLo] to
    [outLo], and it maps [inHi] to [outHi] when the two differences and
    their product fit in a [long]. *)
Theorem map_formula_and_endpoints x inLo inHi outLo outHi :
  is_long inLo -> is_long inHi -> is_long outLo -> is_long outHi ->
  inLo <> inHi ->
  (is_long (x - inLo) -> is_long (outHi - outLo) ->
   is_long ((x - inLo) * (outHi - outLo)) -> is_long (inHi - inLo) ->
   is_long (linear_map_formula x inLo inHi outLo outHi) ->
   LinearMap.map x inLo inHi outLo outHi
   = Some (linear_map_formula x inLo inHi outLo outHi))
  /\ LinearMap.map inLo inLo inHi outLo outHi = Some outLo
  /\ (is_long (inHi - inLo) -> is_long (outHi - outLo) ->
      is_long ((inHi - inLo) * (outHi - outLo)) ->
      LinearMap.map inHi inLo inHi outLo outHi = Some outHi).
Proof.
  intros HinLo HinHi HoutLo HoutHi Hne. split; [|split].
  - intros H1 H2 H3 H4 H5. rewrite map_exact by done.
    f_equal. by apply to_long_small.
  - unfold LinearMap.map. rewrite Z.sub_diag.
    pose proof (long_difference_nonzero inLo inHi HinLo HinHi Hne) as Hd.
    destruct (Z.eqb_spec (to_long (inHi - inLo)) 0); [done|].
    change (to_long 0) with 0. rewrite Z.mul_0_l.
    change (to_long 0) with 0. rewrite Z.quot_0_l by done.
    change (to_long 0) with 0. simpl. f_equal. by apply to_long_small.
  - intros H1 H2 H3. rewrite map_exact by done.
    unfold linear_map_formula.
    rewrite (Z.mul_comm (inHi - inLo)), Z.quot_mul by lia.
    f_equal. replace (outHi - outLo + outLo) with outHi by lia.
    by apply to_long_small.
Qed.

End MapProperties.

Lemma map_formula_and_endpoints_witness :
  is_long 0 /\ is_long 1023 /\ is_long 255 /\ 0 <> 1023
  /\ LinearMap.map 512 0 1023 0 255 = Some 127
  /\ LinearMap.map 0 0 1023 0 255 = Some 0
  /\ LinearMap.map 1023 0 1023 0 255 = Some 255.
Proof.
  assert (H0 : is_long 0) by (unfold is_long; lia).
  assert (H1 : is_long 1023) by (unfold is_long; lia).
  assert (H2 : is_long 255) by (unfold is_long; lia).
  assert (H3 : 0 <> 1023) by lia.
  destruct (map_formula_and_endpoints 512 0 1023 0 255 H0 H1 H0 H2 H3)
    as (Hf & Hlo & Hhi).
  split; [exact H0|]. split; [exact H1|]. split; [exact H2|].
  split; [exact H3|]. split; [|split; [exact Hlo|]].
  - rewrite Hf; [reflexivity | unfold is_long; vm_compute; split; congruence ..].
  - apply Hhi; unfold is_long; lia.
Defined.

(** C7, as stated, fails: the input range [0, 65536] is not degenerate, yet
    the product [65536 * 65536] does not fit in a 32-bit [long] and the
    upper end point is mapped to 0. *)
Lemma map_upper_endpoint_overflow :
  (0 : Z) <> 65536
  /\ is_long 0 /\ is_long 65536
  /\ LinearMap.map 65536 0 65536 0 65536 = Some 0
  /\ LinearMap.map 65536 0 65536 0 65536 <> Some 65536.
Proof.
  split; [lia|]. split; [unfold is_long; lia|]. split; [unfold is_long; lia|].
  split; [vm_compute; reflexivity | vm_compute; congruence].
Qed.


(** ** Shifting a byte out and in *)

Section ShiftProperties.

Context {bd : Board} {HW : Type} {pf : Platform HW}.
Implicit Types (w : @World HW) (pin : Z).

Lemma same_config_refl w : same_config w w.
Proof. by repeat split. Qed.

Lemma same_config_trans w1 w2 w3 :
  same_config w1 w2 -> same_config w2 w3 -> same_config w1 w3.
Proof. unfold same_config. intros (?&?&?&?) (?&?&?&?). repeat split; congruence. Qed.

Lemma pinAvailable_config pin w w' :
  same_config w w' -> pinAvailable pin w' = pinAvailable pin w.
Proof. intros (_ & H1 & H2 & H3). unfold pinAvailable. by rewrite H1, H2, H3. Qed.

Lemma write_guard_config pin w w' :
  same_config w w' -> write_guard pin w' = write_guard pin w.
Proof.
  intros H. unfold write_guard. rewrite (pinAvailable_config pin w w' H).
  destruct H as [-> _]. done.
Qed.

Lemma read_guard_config pin w w' :
  same_config w w' -> read_guard pin w' = read_guard pin w.
Proof.
  intros H. unfold read_guard. rewrite (pinAvailable_config pin w w' H).
  destruct H as [-> _]. done.
Qed.

(** What a [digitalWrite] that returns has done. *)
Lemma digitalWrite_run pin v w w' :
  digitalWrite pin v w = Done tt w' ->
  same_config w w'
  /\ hal_calls w' =
       hal_calls w ++ (if write_guard pin w then [Call_GPIO_Write pin v] else []).
Proof.
  run_op. unfold write_guard.
  destruct (Z.leb_spec TOTAL_PINS pin) as [Hge|Hlt].
  { intros [= <-]. rewrite (proj2 (Z.ltb_ge _ _)) by done. simpl.
    by rewrite app_nil_r. }
  rewrite (proj2 (Z.ltb_lt _ _)) by done.
  destruct (PIN_MAP w !! Z.to_nat pin) as [e|]; [|done]. push_state.
  destruct (pinAvailable pin w), e as [[] ? ?]; simpl; intros [= <-]; simpl;
    rewrite ?app_nil_r; done.
Qed.

(** What a [digitalRead] that returns has done. *)
Lemma digitalRead_run pin w r w' :
  digitalRead pin w = Done r w' ->
  same_config w w'
  /\ if read_guard pin w
     then hal_calls w' = hal_calls w ++ [Call_GPIO_Read pin r]
     else w' = w /\ r = LOW.
Proof.
  run_op. unfold read_guard.
  destruct (Z.leb_spec TOTAL_PINS pin) as [Hge|Hlt].
  { intros [= <- <-]. by rewrite (proj2 (Z.ltb_ge _ _)) by done. }
  rewrite (proj2 (Z.ltb_lt _ _)) by done.
  destruct (PIN_MAP w !! Z.to_nat pin) as [e|]; [|done]. push_state.
  destruct (pinAvailable pin w), e as [[] ? ?]; simpl;
    try (intros [= <- <-]; done);
    destruct (hal_gpio_read pin (hw w)) as [r0 h0]; intros [= <- <-]; done.
Qed.

Lemma gpio_writes_app pin (l k : list HalCall) :
  gpio_writes pin (l ++ k) = gpio_writes pin l ++ gpio_writes pin k.
Proof.
  induction l as [|[] l IH]; simpl; try done.
  case_match; simpl; by rewrite IH.
Qed.

Lemma gpio_reads_app pin (l k : list HalCall) :
  gpio_reads pin (l ++ k) = gpio_reads pin l ++ gpio_reads pin k.
Proof.
  induction l as [|[] l IH]; simpl; try done.
  case_match; simpl; by rewrite IH.
Qed.

Lemma calls_since_app w w' (tr : list HalCall) :
  hal_calls w' = hal_calls w ++ tr -> calls_since w w' = tr.
Proof. intros H. unfold calls_since. rewrite H. apply drop_app_length. Qed.

Lemma table_ok_config w w' : same_config w w' -> table_ok w -> table_ok w'.
Proof. unfold table_ok. by intros [-> _]. Qed.

Lemma digitalWrite_returns pin v w :
  table_ok w -> 0 <= pin -> exists w', digitalWrite pin v w = Done tt w'.
Proof.
  intros Hok Hpos. run_op.
  destruct (Z.leb_spec TOTAL_PINS pin); [by eexists|].
  destruct (table_lookup w pin Hok) as [e ->]; [lia|]. push_state.
  repeat case_match; by eexists.
Qed.

Lemma digitalRead_returns pin w :
  table_ok w -> 0 <= pin -> exists r w', digitalRead pin w = Done r w'.
Proof.
  intros Hok Hpos. run_op.
  destruct (Z.leb_spec TOTAL_PINS pin); [by do 2 eexists|].
  destruct (table_lookup w pin Hok) as [e ->]; [lia|]. push_state.
  repeat case_match; by do 2 eexists.
Qed.

Lemma bind_Done {A B} (m : @M HW A) (k : A -> @M HW B) w a w1 :
  m w = Done a w1 -> bind m k w = k a w1.
Proof. unfold bind. by intros ->. Qed.

(** Both loops run to their end on a board table of the right size. *)
Lemma shiftOut_loop_returns (n : nat) (dataPin clockPin : Z) bitOrder val :
  0 <= dataPin -> 0 <= clockPin ->
  forall i w, table_ok w ->
    exists w1, shiftOut_loop n i dataPin clockPin bitOrder val w = Done tt w1.
Proof.
  intros Hd Hc. induction n as [|n IH]; intros i w Hok; simpl; [by eexists|].
  destruct (digitalWrite_returns dataPin
              (bit_of val (bit_position bitOrder i)) w Hok Hd) as [wa Ha].
  rewrite (bind_Done _ _ _ _ _ Ha).
  apply digitalWrite_run in Ha as [Ca _]. apply (table_ok_config _ _ Ca) in Hok.
  destruct (digitalWrite_returns clockPin HIGH wa Hok Hc) as [wb Hb].
  rewrite (bind_Done _ _ _ _ _ Hb).
  apply digitalWrite_run in Hb as [Cb _]. apply (table_ok_config _ _ Cb) in Hok.
  destruct (digitalWrite_returns clockPin LOW wb Hok Hc) as [wc Hc'].
  rewrite (bind_Done _ _ _ _ _ Hc').
  apply digitalWrite_run in Hc' as [Cc _]. apply (table_ok_config _ _ Cc) in Hok.
  by apply IH.
Qed.

Lemma shiftIn_loop_returns (n : nat) (dataPin clockPin : Z) bitOrder :
  0 <= dataPin -> 0 <= clockPin ->
  forall i value w, table_ok w ->
    exists v w2, shiftIn_loop n i dataPin clockPin bitOrder value w = Done v w2.
Proof.
  intros Hd Hc. induction n as [|n IH]; intros i value w Hok; simpl;
    [by do 2 eexists|].
  destruct (digitalWrite_returns clockPin HIGH w Hok Hc) as [wa Ha].
  rewrite (bind_Done _ _ _ _ _ Ha).
  apply digitalWrite_run in Ha as [Ca _]. apply (table_ok_config _ _ Ca) in Hok.
  destruct (digitalRead_returns dataPin wa Hok Hd) as (r & wb & Hb).
  rewrite (bind_Done _ _ _ _ _ Hb).
  apply digitalRead_run in Hb as [Cb _]. apply (table_ok_config _ _ Cb) in Hok.
  destruct (digitalWrite_returns clockPin LOW wb Hok Hc) as [wc Hc'].
  rewrite (bind_Done _ _ _ _ _ Hc').
  apply digitalWrite_run in Hc' as [Cc _]. apply (table_ok_config _ _ Cc) in Hok.
  by apply IH.
Qed.

(** [shiftOut] drives the selected bits on the data pin, in order. *)
Lemma shiftOut_loop_run (n : nat) (dataPin clockPin : Z) bitOrder val :
  dataPin <> clockPin ->
  forall i w w1,
    write_guard dataPin w = true ->
    shiftOut_loop n i dataPin clockPin bitOrder val w = Done tt w1 ->
    same_config w w1
    /\ exists tr, hal_calls w1 = hal_calls w ++ tr
                  /\ gpio_writes dataPin tr = bits_from bitOrder val i n.
Proof.
  intros Hne. induction n as [|n IH]; intros i w w1 Hg; simpl.
  { intros [= <-]. split; [apply same_config_refl|].
    exists []. by rewrite app_nil_r. }
  intros H.
  apply bind_Done_inv in H as ([] & wa & Ha & H).
  apply bind_Done_inv in H as ([] & wb & Hb & H).
  apply bind_Done_inv in H as ([] & wc & Hc & H).
  apply digitalWrite_run in Ha as [Ca Ta]. rewrite Hg in Ta.
  apply digitalWrite_run in Hb as [Cb Tb].
  apply digitalWrite_run in Hc as [Cc Tc].
  assert (Cac : same_config w wc)
    by (eapply same_config_trans; [|done]; by eapply same_config_trans).
  apply IH in H as [Cd (tr & Td & Hw)];
    [| by rewrite (write_guard_config dataPin w wc Cac)].
  split; [by eapply same_config_trans|].
  eexists. split.
  { rewrite Td, Tc, Tb, Ta. rewrite <- !app_assoc. reflexivity. }
  rewrite !gpio_writes_app, Hw. simpl.
  rewrite Z.eqb_refl.
  assert (Hoff : forall g v,
             gpio_writes dataPin
               (if g : bool then [Call_GPIO_Write clockPin v] else []) = []).
  { intros [] v; simpl; [|done].
    destruct (Z.eqb_spec clockPin dataPin); [congruence|done]. }
  by rewrite !Hoff.
Qed.

(** [shiftIn] assembles the levels it reads on the data pin, in order. *)
Lemma shiftIn_loop_run (n : nat) (dataPin clockPin : Z) bitOrder :
  forall i value w v w2,
    read_guard dataPin w = true ->
    shiftIn_loop n i dataPin clockPin bitOrder value w = Done v w2 ->
    same_config w w2
    /\ exists tr, hal_calls w2 = hal_calls w ++ tr
                  /\ v = assemble bitOrder i value (gpio_reads dataPin tr).
Proof.
  induction n as [|n IH]; intros i value w v w2 Hg; simpl.
  { intros [= <- <-]. split; [apply same_config_refl|].
    exists []. by rewrite app_nil_r. }
  intros H.
  apply bind_Done_inv in H as ([] & wa & Ha & H).
  apply bind_Done_inv in H as (r & wb & Hb & H).
  apply bind_Done_inv in H as ([] & wc & Hc & H).
  apply digitalWrite_run in Ha as [Ca Ta].
  apply digitalRead_run in Hb as [Cb Tb].
  rewrite (read_guard_config dataPin w wa Ca), Hg in Tb.
  apply digitalWrite_run in Hc as [Cc Tc].
  assert (Cac : same_config w wc)
    by (eapply same_config_trans; [|done]; by eapply same_config_trans).
  apply IH in H as [Cd (tr & Td & Hv)];
    [| by rewrite (read_guard_config dataPin w wc Cac)].
  split; [by eapply same_config_trans|].
  eexists. split.
  { rewrite Td, Tc, Tb, Ta. rewrite <- !app_assoc. reflexivity. }
  rewrite !gpio_reads_app, Hv. simpl. rewrite Z.eqb_refl.
  assert (Hoff : forall g p x,
             gpio_reads dataPin
               (if g : bool then [Call_GPIO_Write p x] else []) = []).
  { by intros [] p x. }
  by rewrite !Hoff.
Qed.

(** The eight bits of a byte, put back where they came from. *)
Lemma assemble_emitted_bits bitOrder (b : Z) :
  0 <= b < 256 -> assemble bitOrder 0 0 (emitted_bits bitOrder b) = b.
Proof.
  intros Hb.
  assert (Hall : forallb
                   (fun x => assemble bitOrder 0 0 (emitted_bits bitOrder x) =? x)
                   (seqZ 0 256) = true)
    by (destruct bitOrder; vm_compute; reflexivity).
  rewrite forallb_forall in Hall. apply Z.eqb_eq, Hall.
  apply list_elem_of_In, elem_of_seqZ. lia.
Qed.

(** C6, as amended: shift round trip. On a board table of the right size,
    with the data pin of [shiftOut] writable and the data pin of [shiftIn]
    readable, [shiftOut] followed by [shiftIn] both return; when the
    levels [shiftIn] samples on its data pin are, in order, the levels
    [shiftOut] drove on its own (one per clock pulse, as through an 8-stage
    shift register), [shiftIn] returns the byte that was shifted out, for
    both bit orders. *)
Theorem shift_round_trip_in_order w
    (dataPin clockPin dataPin' clockPin' : Z) bitOrder (b : Z) :
  table_ok w ->
  0 <= dataPin -> 0 <= clockPin -> 0 <= dataPin' -> 0 <= clockPin' ->
  0 <= b < 256 ->
  dataPin <> clockPin ->
  write_guard dataPin w = true ->
  read_guard dataPin' w = true ->
  exists w1 v w2,
    shiftOut dataPin clockPin bitOrder b w = Done tt w1
    /\ shiftIn dataPin' clockPin' bitOrder w1 = Done v w2
    /\ (gpio_reads dataPin' (calls_since w1 w2)
        = gpio_writes dataPin (calls_since w w1) ->
        v = b).
Proof.
  intros Hok Hd Hc Hd' Hc' Hb Hne Hw Hr.
  destruct (shiftOut_loop_returns 8 dataPin clockPin bitOrder b Hd Hc 0 w Hok)
    as [w1 Hout].
  pose proof Hout as Hrun.
  apply shiftOut_loop_run in Hrun as [Cfg (tr1 & T1 & W1)]; [|done..].
  apply (table_ok_config _ _ Cfg) in Hok.
  destruct (shiftIn_loop_returns 8 dataPin' clockPin' bitOrder Hd' Hc' 0 0 w1 Hok)
    as (v & w2 & Hin).
  exists w1, v, w2. split; [exact Hout|]. split; [exact Hin|].
  apply shiftIn_loop_run in Hin as [_ (tr2 & T2 & ->)];
    [| by rewrite (read_guard_config dataPin' w w1 Cfg)].
  rewrite (calls_since_app _ _ _ T1), (calls_since_app _ _ _ T2).
  intros Hloop. rewrite Hloop, W1. by apply assemble_emitted_bits.
Qed.

End ShiftProperties.

Lemma shift_round_trip_in_order_witness :
  let w := register_world in
  table_ok w /\ 0 <= 2 /\ 0 <= 3 /\ 0 <= 4 /\ 0 <= 5
  /\ 0 <= 165 < 256 /\ 2 <> 3
  /\ write_guard 2 w = true /\ read_guard 4 w = true
  /\ exists w1 v w2,
       shiftOut 2 3 LSBFIRST 165 w = Done tt w1
       /\ shiftIn 4 5 LSBFIRST w1 = Done v w2
       /\ gpio_reads 4 (calls_since w1 w2) = gpio_writes 2 (calls_since w w1)
       /\ v = 165.
Proof.
  intros w.
  assert (H0 : table_ok w) by reflexivity.
  assert (Hp2 : 0 <= 2) by lia.
  assert (Hp3 : 0 <= 3) by lia.
  assert (Hp4 : 0 <= 4) by lia.
  assert (Hp5 : 0 <= 5) by lia.
  assert (H1 : 0 <= 165 < 256) by lia.
  assert (H2 : 2 <> 3) by lia.
  assert (H3 : write_guard 2 w = true) by (vm_compute; reflexivity).
  assert (H4 : read_guard 4 w = true) by (vm_compute; reflexivity).
  destruct (shift_round_trip_in_order w 2 3 4 5 LSBFIRST 165
              H0 Hp2 Hp3 Hp4 Hp5 H1 H2 H3 H4) as (w1 & v & w2 & Hout & Hin & Hrt).
  assert (Hout' : shiftOut 2 3 LSBFIRST 165 w
                  = Done tt (res_world w (shiftOut 2 3 LSBFIRST 165 w)))
    by (vm_compute; reflexivity).
  rewrite Hout' in Hout. apply Done_inj in Hout as [_ <-].
  assert (Hin' : shiftIn 4 5 LSBFIRST (res_world w (shiftOut 2 3 LSBFIRST 165 w))
                 = Done 165 (res_world w
                               (shiftIn 4 5 LSBFIRST
                                  (res_world w (shiftOut 2 3 LSBFIRST 165 w)))))
    by (vm_compute; reflexivity).
  rewrite Hin' in Hin. apply Done_inj in Hin as [<- <-].
  assert (Hloop : gpio_reads 4
                    (calls_since (res_world w (shiftOut 2 3 LSBFIRST 165 w))
                       (res_world w
                          (shiftIn 4 5 LSBFIRST
                             (res_world w (shiftOut 2 3 LSBFIRST 165 w)))))
                  = gpio_writes 2
                      (calls_since w (res_world w (shiftOut 2 3 LSBFIRST 165 w))))
    by (vm_compute; reflexivity).
  repeat (split; [assumption|]).
  do 3 eexists. split; [exact Hout'|]. split; [exact Hin'|].
  split; [exact Hloop | exact (Hrt Hloop)].
Defined.

(** C6, as stated, fails. With the two data pins joined by a wire and every
    pin configured and available, [shiftIn] run after [shiftOut] samples
    eight times the level of the last bit driven: the byte 1, shifted out
    least significant bit first, comes back as 0. *)
Lemma shift_wire_loopback_loses_byte :
  write_guard 2 wire_world = true /\ write_guard 3 wire_world = true
  /\ read_guard 4 wire_world = true /\ write_guard 5 wire_world = true
  /\ exists w1 w2,
       shiftOut 2 3 LSBFIRST 1 wire_world = Done tt w1
       /\ shiftIn 4 5 LSBFIRST w1 = Done 0 w2
       /\ gpio_reads 4 (calls_since w1 w2) = [0; 0; 0; 0; 0; 0; 0; 0]
       /\ last (gpio_writes 2 (calls_since wire_world w1)) = Some 0.
Proof.
  do 4 (split; [vm_compute; reflexivity|]).
  do 2 eexists. split; [vm_compute; reflexivity|].
  split; [vm_compute; reflexivity|]. split; vm_compute; reflexivity.
Qed.


(** ** Further properties of the pin operations *)

Section MorePinProperties.

Context {bd : Board} {HW : Type} {pf : Platform HW}.
Implicit Types (w : @World HW) (pin : Z).

(** X1: analog remap. A short-form index below [FIRST_ANALOG_PIN] names the
    same pin as the index plus [FIRST_ANALOG_PIN]: the two calls are the
    same computation. *)
Theorem analogRead_short_form w (p : Z) :
  0 <= p < FIRST_ANALOG_PIN -> p + FIRST_ANALOG_PIN < 2 ^ 16 ->
  analogRead p w = analogRead (p + FIRST_ANALOG_PIN) w.
Proof.
  intros Hp Hr. unfold analogRead.
  assert (H1 : analog_pin p = p + FIRST_ANALOG_PIN).
  { unfold analog_pin, to_uint16.
    rewrite (proj2 (Z.ltb_lt _ _)) by lia. apply Z.mod_small. lia. }
  assert (H2 : analog_pin (p + FIRST_ANALOG_PIN) = p + FIRST_ANALOG_PIN).
  { unfold analog_pin. by rewrite (proj2 (Z.ltb_ge _ _)) by lia. }
  by rewrite H1, H2.
Qed.

(** X2: [pinMode] never reads the board table, so it returns on any table;
    it calls [HAL_Pin_Mode] once exactly when the pin is in range, the mode
    is not [NONE] and no enabled bus claims the pin, and changes nothing
    otherwise. *)
Theorem pinMode_guard w pin (m : PinMode) :
  exists w',
    pinMode pin m w = Done tt w'
    /\ hal_calls w' =
         hal_calls w
         ++ (if config_guard pin m w then [Call_Pin_Mode pin m] else [])
    /\ (config_guard pin m w = false -> w' = w).
Proof.
  run_op. unfold config_guard.
  destruct (Z.leb_spec TOTAL_PINS pin) as [Hge|Hlt]; simpl.
  { rewrite (proj2 (Z.ltb_ge _ _)) by done. simpl.
    eexists. split; [done|]. by rewrite app_nil_r. }
  rewrite (proj2 (Z.ltb_lt _ _)) by done. simpl.
  destruct (bool_decide (m = NONE)); simpl.
  { eexists. split; [done|]. by rewrite app_nil_r. }
  destruct (pinAvailable pin w); simpl;
    (eexists; split; [done|]); simpl; rewrite ?app_nil_r; done.
Qed.

(** X3: [digitalRead] on a board table of the right size. When the guards
    pass it is the HAL's read of that pin; otherwise it returns [LOW] and
    changes nothing. *)
Theorem digitalRead_guard w pin :
  table_ok w -> 0 <= pin ->
  (read_guard pin w = true -> digitalRead pin w = HAL_GPIO_Read pin w)
  /\ (read_guard pin w = false -> digitalRead pin w = Done LOW w).
Proof.
  intros Hok Hpos. unfold read_guard. run_op.
  destruct (Z.leb_spec TOTAL_PINS pin) as [Hge|Hlt].
  { rewrite (proj2 (Z.ltb_ge _ _)) by done. by split. }
  rewrite (proj2 (Z.ltb_lt _ _)) by done.
  destruct (table_lookup w pin Hok) as [e ->]; [lia|]. push_state.
  destruct (pinAvailable pin w), e as [[] ? ?]; simpl; by split.
Qed.

Lemma with_hw_adds_call (h : HW) (c : HalCall) w : with_hw h [c] w <> w.
Proof.
  intros H. apply (f_equal (fun x => length (hal_calls x))) in H.
  simpl in H. rewrite length_app in H. simpl in H. lia.
Qed.

(** X4: [OUTPUT] is the only mode in which a pin can be both written and
    read digitally. For a pin with a table entry, [digitalWrite] and
    [digitalRead] both reach the HAL (each is the HAL's own call) exactly
    when the pin is in range, available and in mode [OUTPUT]:
    [digitalWrite] wants an output mode, [digitalRead] refuses the two
    alternate output modes. *)
Theorem read_and_write_only_in_output_mode w pin (v : Z) (e : STM32_Pin_Info) :
  PIN_MAP w !! Z.to_nat pin = Some e ->
  (digitalWrite pin v w = HAL_GPIO_Write pin v w
   /\ digitalRead pin w = HAL_GPIO_Read pin w
   <-> pin < TOTAL_PINS /\ pinAvailable pin w = true /\ pin_mode e = OUTPUT).
Proof.
  intros He.
  assert (Hnw : Done tt w <> HAL_GPIO_Write pin v w).
  { unfold HAL_GPIO_Write. intros H. apply Done_inj in H as [_ H].
    symmetry in H. by apply with_hw_adds_call in H. }
  assert (Hnr : Done LOW w <> HAL_GPIO_Read pin w).
  { unfold HAL_GPIO_Read. destruct (hal_gpio_read pin (hw w)) as [r h].
    intros H. apply Done_inj in H as [_ H].
    symmetry in H. by apply with_hw_adds_call in H. }
  unfold digitalWrite, digitalRead, bind, ret, gets, table.
  try unfold M. push_state. rewrite He.
  destruct (Z.leb_spec TOTAL_PINS pin) as [Hge|Hlt].
  { split; [intros [H _]; by destruct Hnw | lia]. }
  push_state.
  destruct (pinAvailable pin w), e as [[] ? ?]; simpl;
    (split;
     [ intros [H1 H2];
       first [ by destruct Hnw | by destruct Hnr | by repeat split ]
     | intros (_ & Ha & Hm); first [ done | by split ] ]).
Qed.

(** X5: [analogRead] does not look at the mode of the pin: changing the
    mode of any table entry changes neither the value returned nor the HAL
    call made. *)
Theorem analogRead_ignores_mode w (p : Z) (i : nat) (m : PinMode) :
  analogRead p (with_mode i m w) =
    match analogRead p w with
    | Done r w' => Done r (with_mode i m w')
    | OutOfBounds => OutOfBounds
    end.
Proof.
  run_op. unfold with_mode at 1 2 3. simpl.
  change (pinAvailable (analog_pin p) (with_table _ w))
    with (pinAvailable (analog_pin p) w).
  destruct (pinAvailable (analog_pin p) w); simpl; [|done].
  destruct (TOTAL_PINS <=? analog_pin p); [done|].
  destruct (decide (i = Z.to_nat (analog_pin p))) as [->|Hne].
  - rewrite list_lookup_alter_eq.
    destruct (PIN_MAP w !! Z.to_nat (analog_pin p)) as [e|]; simpl; [|done].
    push_state. unfold with_mode. simpl.
    destruct (bool_decide (adc_channel e = None)); [reflexivity|].
    destruct (hal_adc_read (analog_pin p) (hw w)). reflexivity.
  - rewrite list_lookup_alter_ne by done.
    destruct (PIN_MAP w !! Z.to_nat (analog_pin p)) as [e|]; simpl; [|done].
    push_state. unfold with_mode. simpl.
    destruct (bool_decide (adc_channel e = None)); [reflexivity|].
    destruct (hal_adc_read (analog_pin p) (hw w)). reflexivity.
Qed.

(** X6: [analogWrite] on a board table of the right size. It is the HAL's
    PWM write when the pin is in range, has a timer, is available and is in
    mode [OUTPUT] or [AF_OUTPUT_PUSHPULL]; otherwise (also for
    [AF_OUTPUT_DRAIN], which [digitalWrite] accepts) it changes nothing. *)
Theorem analogWrite_guard w pin (v : Z) :
  table_ok w -> 0 <= pin ->
  (pwm_guard pin w = true -> analogWrite pin v w = HAL_PWM_Write pin v w)
  /\ (pwm_guard pin w = false -> analogWrite pin v w = Done tt w)
  /\ (forall e, PIN_MAP w !! Z.to_nat pin = Some e ->
                pin_mode e = AF_OUTPUT_DRAIN -> pwm_guard pin w = false).
Proof.
  intros Hok Hpos. unfold pwm_guard. run_op.
  destruct (Z.leb_spec TOTAL_PINS pin) as [Hge|Hlt].
  { rewrite (proj2 (Z.ltb_ge _ _)) by done. by repeat split. }
  rewrite (proj2 (Z.ltb_lt _ _)) by done.
  destruct (table_lookup w pin Hok) as [e He]; [lia|]. rewrite He.
  push_state. rewrite ?He. push_state.
  split; [|split].
  - destruct (pinAvailable pin w), e as [[] [] []]; simpl; done.
  - destruct (pinAvailable pin w), e as [[] [] []]; simpl; done.
  - intros e' [= <-] Hm. rewrite Hm. simpl. by rewrite andb_false_r.
Qed.

End MorePinProperties.

Section HalCallTargets.

Context {bd : Board} {HW : Type} {pf : Platform HW}.
Implicit Types (w : @World HW) (pin : Z).

Lemma pinMode_calls pin (m : PinMode) w w' :
  pinMode pin m w = Done tt w' ->
  hal_calls w' =
    hal_calls w ++ (if config_guard pin m w then [Call_Pin_Mode pin m] else []).
Proof.
  run_op. unfold config_guard.
  destruct (Z.leb_spec TOTAL_PINS pin) as [Hge|Hlt]; simpl.
  { rewrite (proj2 (Z.ltb_ge _ _)) by done. intros [= <-]. simpl.
    by rewrite app_nil_r. }
  rewrite (proj2 (Z.ltb_lt _ _)) by done. simpl.
  destruct (bool_decide (m = NONE)), (pinAvailable pin w); simpl;
    intros [= <-]; simpl; by rewrite ?app_nil_r.
Qed.

Lemma analogRead_calls (p : Z) w (r : Z) w' :
  analogRead p w = Done r w' ->
  hal_calls w' =
    hal_calls w
    ++ (if adc_guard (analog_pin p) w then [Call_ADC_Read (analog_pin p) r]
        else []).
Proof.
  run_op. unfold adc_guard.
  destruct (pinAvailable (analog_pin p) w); simpl;
    [| intros [= <- <-]; by rewrite app_nil_r].
  destruct (Z.leb_spec TOTAL_PINS (analog_pin p)) as [Hge|Hlt].
  { rewrite (proj2 (Z.ltb_ge _ _)) by done. intros [= <- <-].
    by rewrite app_nil_r. }
  rewrite (proj2 (Z.ltb_lt _ _)) by done.
  destruct (PIN_MAP w !! Z.to_nat (analog_pin p)) as [e|]; [|done].
  push_state. destruct (bool_decide (adc_channel e = None)); simpl.
  { intros [= <- <-]. by rewrite app_nil_r. }
  destruct (hal_adc_read (analog_pin p) (hw w)). by intros [= <- <-].
Qed.

Lemma analogWrite_calls pin (v : Z) w w' :
  analogWrite pin v w = Done tt w' ->
  hal_calls w' =
    hal_calls w ++ (if pwm_guard pin w then [Call_PWM_Write pin v] else []).
Proof.
  run_op. unfold pwm_guard.
  destruct (Z.leb_spec TOTAL_PINS pin) as [Hge|Hlt].
  { rewrite (proj2 (Z.ltb_ge _ _)) by done. intros [= <-].
    by rewrite app_nil_r. }
  rewrite (proj2 (Z.ltb_lt _ _)) by done.
  destruct (PIN_MAP w !! Z.to_nat pin) as [e|] eqn:He; [|done].
  push_state. rewrite ?He. push_state.
  destruct (pinAvailable pin w), e as [[] [] []]; simpl;
    intros [= <-]; simpl; by rewrite ?app_nil_r.
Qed.

Lemma digitalRead_calls pin w (r : Z) w' :
  digitalRead pin w = Done r w' ->
  hal_calls w' =
    hal_calls w ++ (if read_guard pin w then [Call_GPIO_Read pin r] else []).
Proof.
  intros H. apply digitalRead_run in H as [_ H].
  destruct (read_guard pin w); [done|].
  destruct H as [-> _]. by rewrite app_nil_r.
Qed.

Lemma Forall_guarded_call w (c : HalCall) (g : bool) :
  (g = true -> on_free_pin w c) ->
  Forall (on_free_pin w) (if g then [c] else []).
Proof. destruct g; intros H; constructor; [by apply H | constructor]. Qed.

(** X7: the layer calls the HAL only on pins of the board that no enabled
    bus claims. Every HAL call made by a pin operation acts on a pin below
    [TOTAL_PINS] that [pinAvailable] accepts ([analogRead]: the remapped
    pin). *)
Theorem hal_calls_on_free_pins w pin (v : Z) (m : PinMode) :
  (forall w', pinMode pin m w = Done tt w' ->
              Forall (on_free_pin w) (calls_since w w'))
  /\ (forall w', digitalWrite pin v w = Done tt w' ->
                 Forall (on_free_pin w) (calls_since w w'))
  /\ (forall r w', digitalRead pin w = Done r w' ->
                   Forall (on_free_pin w) (calls_since w w'))
  /\ (forall r w', analogRead pin w = Done r w' ->
                   Forall (on_free_pin w) (calls_since w w'))
  /\ (forall w', analogWrite pin v w = Done tt w' ->
                 Forall (on_free_pin w) (calls_since w w')).
Proof.
  repeat split.
  - intros w' H. apply pinMode_calls in H.
    rewrite (calls_since_app _ _ _ H). apply Forall_guarded_call.
    unfold config_guard, on_free_pin. simpl.
    rewrite !andb_true_iff, Z.ltb_lt. tauto.
  - intros w' H. apply digitalWrite_run in H as [_ H].
    rewrite (calls_since_app _ _ _ H). apply Forall_guarded_call.
    unfold write_guard, on_free_pin. simpl.
    destruct (PIN_MAP w !! Z.to_nat pin);
      rewrite ?andb_true_iff, Z.ltb_lt; [tauto | intros [_ [=]]].
  - intros r w' H. apply digitalRead_calls in H.
    rewrite (calls_since_app _ _ _ H). apply Forall_guarded_call.
    unfold read_guard, on_free_pin. simpl.
    destruct (PIN_MAP w !! Z.to_nat pin);
      rewrite ?andb_true_iff, Z.ltb_lt; [tauto | intros [_ [=]]].
  - intros r w' H. apply analogRead_calls in H.
    rewrite (calls_since_app _ _ _ H). apply Forall_guarded_call.
    unfold adc_guard, on_free_pin. simpl.
    rewrite !andb_true_iff, Z.ltb_lt. tauto.
  - intros w' H. apply analogWrite_calls in H.
    rewrite (calls_since_app _ _ _ H). apply Forall_guarded_call.
    unfold pwm_guard, on_free_pin. simpl.
    destruct (PIN_MAP w !! Z.to_nat pin);
      rewrite ?andb_true_iff, Z.ltb_lt; [tauto | intros [_ [=]]].
Qed.

End HalCallTargets.

(** ** Further properties of the shift helpers *)

Section MoreShiftProperties.

Context {bd : Board} {HW : Type} {pf : Platform HW}.
Implicit Types (w : @World HW) (pin : Z).

Lemma shiftOut_loop_calls (n : nat) (dataPin clockPin : Z) bitOrder val
    (gd gc : bool) :
  0 <= dataPin -> 0 <= clockPin ->
  forall i w,
    table_ok w ->
    write_guard dataPin w = gd -> write_guard clockPin w = gc ->
    exists w1,
      shiftOut_loop n i dataPin clockPin bitOrder val w = Done tt w1
      /\ hal_calls w1 =
           hal_calls w
           ++ shiftOut_calls gd gc dataPin clockPin (bits_from bitOrder val i n).
Proof.
  intros Hd Hc. induction n as [|n IH]; intros i w Hok Gd Gc; simpl.
  { eexists. split; [done|]. by rewrite app_nil_r. }
  destruct (digitalWrite_returns dataPin
              (bit_of val (bit_position bitOrder i)) w Hok Hd) as [wa Ha].
  rewrite (bind_Done _ _ _ _ _ Ha).
  apply digitalWrite_run in Ha as [Ca Ta]. rewrite Gd in Ta.
  pose proof (table_ok_config _ _ Ca Hok) as Hoka.
  destruct (digitalWrite_returns clockPin HIGH wa Hoka Hc) as [wb Hb].
  rewrite (bind_Done _ _ _ _ _ Hb).
  apply digitalWrite_run in Hb as [Cb Tb].
  rewrite (write_guard_config clockPin w wa Ca), Gc in Tb.
  pose proof (same_config_trans _ _ _ Ca Cb) as Cab.
  pose proof (table_ok_config _ _ Cab Hok) as Hokb.
  destruct (digitalWrite_returns clockPin LOW wb Hokb Hc) as [wc Hc'].
  rewrite (bind_Done _ _ _ _ _ Hc').
  apply digitalWrite_run in Hc' as [Cc Tc].
  rewrite (write_guard_config clockPin w wb Cab), Gc in Tc.
  pose proof (same_config_trans _ _ _ Cab Cc) as Cac.
  destruct (IH (i + 1) wc) as (w1 & Hrun & T1).
  { by eapply table_ok_config. }
  { by rewrite (write_guard_config dataPin w wc Cac). }
  { by rewrite (write_guard_config clockPin w wc Cac). }
  exists w1. split; [done|].
  rewrite T1, Tc, Tb, Ta. unfold shiftOut_step_calls.
  rewrite <- !app_assoc. do 2 f_equal.
  destruct gc; simpl; by rewrite ?app_nil_r.
Qed.

(** X8: the calls of [shiftOut]. On a board table of the right size
    [shiftOut] returns, and it makes, for each of the eight bits in the
    order chosen, a write of the bit on the data pin (if the data pin is
    writable) followed by a high and a low write on the clock pin (if the
    clock pin is writable), and nothing else. *)
Theorem shiftOut_call_sequence w (dataPin clockPin : Z) bitOrder (val : Z) :
  table_ok w -> 0 <= dataPin -> 0 <= clockPin ->
  exists w1,
    shiftOut dataPin clockPin bitOrder val w = Done tt w1
    /\ calls_since w w1 =
         shiftOut_calls (write_guard dataPin w) (write_guard clockPin w)
           dataPin clockPin (emitted_bits bitOrder val).
Proof.
  intros Hok Hd Hc.
  destruct (shiftOut_loop_calls 8 dataPin clockPin bitOrder val _ _ Hd Hc 0 w
              Hok eq_refl eq_refl) as (w1 & Hrun & T).
  exists w1. split; [done|]. by apply calls_since_app.
Qed.

Lemma shiftIn_loop_calls (n : nat) (dataPin clockPin : Z) bitOrder :
  0 <= dataPin -> 0 <= clockPin ->
  forall i value w,
    table_ok w ->
    read_guard dataPin w = true -> write_guard clockPin w = true ->
    exists v w2 samples,
      shiftIn_loop n i dataPin clockPin bitOrder value w = Done v w2
      /\ length samples = n
      /\ hal_calls w2 = hal_calls w ++ shiftIn_calls dataPin clockPin samples
      /\ v = assemble bitOrder i value samples.
Proof.
  intros Hd Hc. induction n as [|n IH]; intros i value w Hok Gd Gc; simpl.
  { exists value, w, []. repeat split; try done. by rewrite app_nil_r. }
  destruct (digitalWrite_returns clockPin HIGH w Hok Hc) as [wa Ha].
  rewrite (bind_Done _ _ _ _ _ Ha).
  apply digitalWrite_run in Ha as [Ca Ta]. rewrite Gc in Ta.
  pose proof (table_ok_config _ _ Ca Hok) as Hoka.
  destruct (digitalRead_returns dataPin wa Hoka Hd) as (r & wb & Hb).
  rewrite (bind_Done _ _ _ _ _ Hb).
  apply digitalRead_run in Hb as [Cb Tb].
  rewrite (read_guard_config dataPin w wa Ca), Gd in Tb.
  pose proof (same_config_trans _ _ _ Ca Cb) as Cab.
  pose proof (table_ok_config _ _ Cab Hok) as Hokb.
  destruct (digitalWrite_returns clockPin LOW wb Hokb Hc) as [wc Hc'].
  rewrite (bind_Done _ _ _ _ _ Hc').
  apply digitalWrite_run in Hc' as [Cc Tc].
  rewrite (write_guard_config clockPin w wb Cab), Gc in Tc.
  pose proof (same_config_trans _ _ _ Cab Cc) as Cac.
  destruct (IH (i + 1)
              (to_uint8 (Z.lor value (Z.shiftl r (bit_position bitOrder i))))
              wc) as (v & w2 & samples & Hrun & Hlen & T2 & Hv).
  { by eapply table_ok_config. }
  { by rewrite (read_guard_config dataPin w wc Cac). }
  { by rewrite (write_guard_config clockPin w wc Cac). }
  exists v, w2, (r :: samples). split; [done|]. split; [simpl; lia|].
  split; [|done].
  rewrite T2, Tc, Tb, Ta. simpl. by rewrite <- !app_assoc.
Qed.

(** X9: the calls of [shiftIn]. With a readable data pin and a writable
    clock pin [shiftIn] returns after eight rounds of: clock high, one
    read of the data pin, clock low. Each level is sampled while the clock
    is high, and the value returned is assembled from the eight samples. *)
Theorem shiftIn_call_sequence w (dataPin clockPin : Z) bitOrder :
  table_ok w -> 0 <= dataPin -> 0 <= clockPin ->
  read_guard dataPin w = true -> write_guard clockPin w = true ->
  exists v w2 samples,
    shiftIn dataPin clockPin bitOrder w = Done v w2
    /\ length samples = 8%nat
    /\ calls_since w w2 = shiftIn_calls dataPin clockPin samples
    /\ v = assemble bitOrder 0 0 samples.
Proof.
  intros Hok Hd Hc Gd Gc.
  destruct (shiftIn_loop_calls 8 dataPin clockPin bitOrder Hd Hc 0 0 w
              Hok Gd Gc) as (v & w2 & samples & Hrun & Hlen & T & Hv).
  exists v, w2, samples. repeat split; try done. by apply calls_since_app.
Qed.

Lemma to_uint8_range x : 0 <= to_uint8 x < 256.
Proof. unfold to_uint8. apply Z.mod_pos_bound. lia. Qed.

Lemma shiftIn_loop_byte (n : nat) (dataPin clockPin : Z) bitOrder :
  forall i value w v w2,
    0 <= value < 256 ->
    shiftIn_loop n i dataPin clockPin bitOrder value w = Done v w2 ->
    0 <= v < 256
    /\ (read_guard dataPin w = false -> v = value).
Proof.
  induction n as [|n IH]; intros i value w v w2 Hval; simpl.
  { by intros [= <- <-]. }
  intros H.
  apply bind_Done_inv in H as ([] & wa & Ha & H).
  apply bind_Done_inv in H as (r & wb & Hb & H).
  apply bind_Done_inv in H as ([] & wc & Hc & H).
  apply digitalWrite_run in Ha as [Ca _].
  apply digitalRead_run in Hb as [Cb Tb].
  apply digitalWrite_run in Hc as [Cc _].
  pose proof (same_config_trans _ _ _ (same_config_trans _ _ _ Ca Cb) Cc)
    as Cac.
  apply IH in H as [Hr Hz]; [|apply to_uint8_range].
  split; [done|]. intros Hg.
  rewrite (read_guard_config dataPin w wa Ca), Hg in Tb.
  destruct Tb as [_ ->].
  rewrite Hz by (by rewrite (read_guard_config dataPin w wc Cac)).
  unfold LOW. rewrite Z.shiftl_0_l, Z.lor_0_r.
  unfold to_uint8. apply Z.mod_small. lia.
Qed.

(** X10: [shiftIn] always returns a byte, whatever the HAL reads give; when
    its data pin cannot be read (out of range, not configured, alternate
    output or claimed by a bus) it returns 0. *)
Theorem shiftIn_returns_byte w (dataPin clockPin : Z) bitOrder :
  table_ok w -> 0 <= dataPin -> 0 <= clockPin ->
  exists v w2,
    shiftIn dataPin clockPin bitOrder w = Done v w2
    /\ 0 <= v < 256
    /\ (read_guard dataPin w = false -> v = 0).
Proof.
  intros Hok Hd Hc.
  destruct (shiftIn_loop_returns 8 dataPin clockPin bitOrder Hd Hc 0 0 w Hok)
    as (v & w2 & Hrun).
  exists v, w2. split; [done|].
  by apply shiftIn_loop_byte in Hrun.
Qed.

(** X11: bit order. Shifting out most significant bit first drives on the
    data pin the levels of the least-significant-first run in reverse. *)
Theorem shiftOut_msb_reverses_lsb w wl wm (dataPin clockPin val : Z) :
  dataPin <> clockPin ->
  write_guard dataPin w = true ->
  shiftOut dataPin clockPin LSBFIRST val w = Done tt wl ->
  shiftOut dataPin clockPin MSBFIRST val w = Done tt wm ->
  gpio_writes dataPin (calls_since w wm)
  = rev (gpio_writes dataPin (calls_since w wl)).
Proof.
  intros Hne Hg Hl Hm.
  apply shiftOut_loop_run in Hl as [_ (trl & Tl & Wl)]; [|done..].
  apply shiftOut_loop_run in Hm as [_ (trm & Tm & Wm)]; [|done..].
  rewrite (calls_since_app _ _ _ Tl), (calls_since_app _ _ _ Tm), Wl, Wm.
  reflexivity.
Qed.

End MoreShiftProperties.

(** ** Further properties of the linear map *)

Section MoreMapProperties.

Lemma map_quotient_bounds (a d o : Z) :
  0 < d -> (0 <= a <= d * o \/ d * o <= a <= 0) ->
  Z.min 0 o <= Z.quot a d <= Z.max 0 o.
Proof.
  intros Hd Ha.
  assert (H0 : Z.quot 0 d = 0) by (apply Z.quot_0_l; lia).
  assert (Ho : Z.quot (d * o) d = o)
    by (rewrite Z.mul_comm; apply Z.quot_mul; lia).
  destruct Ha as [[H1 H2]|[H1 H2]].
  - pose proof (Z.quot_le_mono 0 a d Hd H1).
    pose proof (Z.quot_le_mono a (d * o) d Hd H2). lia.
  - pose proof (Z.quot_le_mono (d * o) a d Hd H1).
    pose proof (Z.quot_le_mono a 0 d Hd H2). lia.
Qed.

(** X12: for an increasing input range and an input inside it, [map]
    returns a value between the two ends of the output range (which may
    itself be decreasing), provided the two differences and their product
    fit in a [long]. *)
Theorem map_within_output_range x inLo inHi outLo outHi :
  is_long outLo -> is_long outHi ->
  inLo < inHi -> inLo <= x <= inHi ->
  is_long (inHi - inLo) -> is_long (outHi - outLo) ->
  is_long ((inHi - inLo) * (outHi - outLo)) ->
  exists y, LinearMap.map x inLo inHi outLo outHi = Some y
            /\ Z.min outLo outHi <= y <= Z.max outLo outHi.
Proof.
  unfold is_long. intros HoL HoH Hlt Hx Hd Ho Hp.
  assert (Ha : 0 <= (x - inLo) * (outHi - outLo)
                 <= (inHi - inLo) * (outHi - outLo)
               \/ (inHi - inLo) * (outHi - outLo)
                  <= (x - inLo) * (outHi - outLo) <= 0) by nia.
  pose proof (map_quotient_bounds _ (inHi - inLo) (outHi - outLo)
                ltac:(lia) Ha) as Hq.
  exists (linear_map_formula x inLo inHi outLo outHi).
  assert (Hr : Z.min outLo outHi
               <= linear_map_formula x inLo inHi outLo outHi
               <= Z.max outLo outHi)
    by (unfold linear_map_formula; lia).
  split; [|done].
  rewrite map_exact; unfold is_long; [| lia ..].
  f_equal. apply to_long_small. lia.
Qed.

(** X13: for an increasing input range and a non-decreasing output range
    [map] is monotone on the input range, under the same provisos. *)
Theorem map_monotone x y inLo inHi outLo outHi :
  is_long outLo -> is_long outHi ->
  inLo < inHi -> outLo <= outHi ->
  inLo <= x -> x <= y -> y <= inHi ->
  is_long (inHi - inLo) -> is_long (outHi - outLo) ->
  is_long ((inHi - inLo) * (outHi - outLo)) ->
  exists a b, LinearMap.map x inLo inHi outLo outHi = Some a
              /\ LinearMap.map y inLo inHi outLo outHi = Some b
              /\ a <= b.
Proof.
  unfold is_long. intros HoL HoH Hlt Hout Hx Hxy Hy Hd Ho Hp.
  assert (Hax : 0 <= (x - inLo) * (outHi - outLo)
                  <= (inHi - inLo) * (outHi - outLo)) by nia.
  assert (Hay : 0 <= (y - inLo) * (outHi - outLo)
                  <= (inHi - inLo) * (outHi - outLo)) by nia.
  pose proof (map_quotient_bounds _ (inHi - inLo) (outHi - outLo)
                ltac:(lia) (or_introl Hax)) as Hqx.
  pose proof (map_quotient_bounds _ (inHi - inLo) (outHi - outLo)
                ltac:(lia) (or_introl Hay)) as Hqy.
  assert (Hm : Z.quot ((x - inLo) * (outHi - outLo)) (inHi - inLo)
               <= Z.quot ((y - inLo) * (outHi - outLo)) (inHi - inLo))
    by (apply Z.quot_le_mono; nia).
  exists (linear_map_formula x inLo inHi outLo outHi),
    (linear_map_formula y inLo inHi outLo outHi).
  split; [|split].
  - rewrite map_exact; unfold is_long; [| lia ..].
    f_equal. apply to_long_small. unfold linear_map_formula. lia.
  - rewrite map_exact; unfold is_long; [| lia ..].
    f_equal. apply to_long_small. unfold linear_map_formula. lia.
  - unfold linear_map_formula. lia.
Qed.

(** X14: mapping a non-degenerate range onto itself gives the input back,
    when the product of the two differences fits in a [long]. *)
Theorem map_same_range_identity x lo hi :
  is_long x -> lo <> hi ->
  is_long (x - lo) -> is_long (hi - lo) ->
  is_long ((x - lo) * (hi - lo)) ->
  LinearMap.map x lo hi lo hi = Some x.
Proof.
  unfold is_long. intros Hx Hne H1 H2 H3.
  rewrite map_exact; unfold is_long; [| lia ..].
  f_equal. unfold linear_map_formula.
  rewrite Z.quot_mul by lia.
  replace (x - lo + lo) with x by lia. by apply to_long_small.
Qed.

End MoreMapProperties.

(** ** Further properties of the delay *)

Section MoreDelayProperties.

Context {bd : Board} {HW : Type} {pf : Platform HW}.
Implicit Types (w : @World HW) (ms last cur : Z).

Lemma events_since_app w w' (evs : list TimeEvent) :
  timeline w' = timeline w ++ evs -> events_since w w' = evs.
Proof. intros H. unfold events_since. rewrite H. apply drop_app_length. Qed.

Lemma count_kicks_app (l k : list TimeEvent) :
  count_kicks (l ++ k) = (count_kicks l + count_kicks k)%nat.
Proof. induction l as [|[] l IH]; simpl; lia. Qed.

Lemma count_polls_app (l k : list TimeEvent) :
  count_polls (l ++ k) = (count_polls l + count_polls k)%nat.
Proof. induction l as [|[] l IH]; simpl; lia. Qed.

Lemma count_services_app (l k : list TimeEvent) :
  count_services (l ++ k) = (count_services l + count_services k)%nat.
Proof. induction l as [|[] l IH]; simpl; lia. Qed.

(** The network step adds service events only. *)
Lemma wlan_service_events (fuel : nat) w w' :
  wlan_service fuel w = Some w' ->
  exists evs, timeline w' = timeline w ++ evs
              /\ count_kicks evs = O /\ count_polls evs = O.
Proof.
  revert w. induction fuel as [|f IH]; intros w; simpl; [done|].
  destruct (flash_update _).
  - intros H. apply IH in H as (evs & -> & Hk & Hp). simpl.
    exists (Service :: evs). by rewrite <- app_assoc.
  - intros [= <-]. simpl. by exists [Service].
Qed.

Lemma delay_yield_events (fuel : nat) next e w next' w' :
  delay_yield fuel next e w = Some (next', w') ->
  exists evs, timeline w' = timeline w ++ evs
              /\ count_kicks evs = O /\ count_polls evs = O.
Proof.
  unfold delay_yield.
  repeat case_match; intros [= <- <-]; simplify_eq;
    try (exists []; by rewrite app_nil_r).
  by eapply wlan_service_events.
Qed.

Lemma delay_loop_events (fuel : nat) ms last next w w' :
  delay_loop fuel ms last next w = Some w' ->
  exists evs, timeline w' = timeline w ++ evs
              /\ count_kicks evs = count_polls evs
              /\ (1 <= count_kicks evs)%nat.
Proof.
  revert next w. induction fuel as [|f IH]; intros next w; simpl; [done|].
  destruct (GetSystem1MsTick (KICK_WDT w)) as [cur w2] eqn:E.
  apply GetSystem1MsTick_timeline in E as [E _]. simpl in E.
  destruct (delay_done ms (elapsed_millis last cur)).
  - intros [= <-]. exists [Kick; Poll cur].
    rewrite E, <- app_assoc. simpl. by repeat split.
  - destruct (delay_yield f next (elapsed_millis last cur) w2)
      as [[next' w3]|] eqn:Hy; [|done].
    apply delay_yield_events in Hy as (evs & Hy & Hk & Hp).
    intros H. apply IH in H as (evs' & -> & Hk' & Hge).
    exists ([Kick; Poll cur] ++ evs ++ evs'). split.
    { rewrite Hy, E. by rewrite <- !app_assoc. }
    rewrite !count_kicks_app, !count_polls_app. simpl. lia.
Qed.

(** X15: lower bound of [delay] up to [2 ^ 31] ms. For every [ms] up to
    [2 ^ 31] and every behaviour of the tick source, when [delay] returns
    at least [ms] ticks lie between the reading taken on entry and the last
    reading of the loop. *)
Theorem delay_blocks_at_least_ms (fuel : nat) ms w w' :
  ms <= 2 ^ 31 ->
  delay fuel ms w = Some w' ->
  exists start evs cur,
    events_since w w' = Poll start :: evs ++ [Poll cur]
    /\ ms <= ticks_since start cur.
Proof.
  intros Hms H.
  destruct (delay_lower_bound fuel ms w w' Hms H) as (start & evs & cur & T & Hb).
  exists start, evs, cur. split; [|done]. by apply events_since_app.
Qed.


Lemma kicked_polls_app (l k : list TimeEvent) :
  kicked_polls l = true -> kicked_polls k = true ->
  kicked_polls (l ++ k) = true.
Proof.
  intros Hl Hk. revert l Hl. fix IH 1.
  intros [|[] l]; simpl; try done.
  - destruct l as [|[] l']; simpl; try done. apply IH.
  - apply IH.
Qed.

(** The network step adds nothing but service events. *)
Lemma wlan_service_only_services (fuel : nat) w w' :
  wlan_service fuel w = Some w' ->
  exists evs, timeline w' = timeline w ++ evs /\ kicked_polls evs = true
              /\ Forall (fun ev => ev = Service) evs.
Proof.
  revert w. induction fuel as [|f IH]; intros w; simpl; [done|].
  destruct (flash_update _).
  - intros H. apply IH in H as (evs & -> & Hk & Hs). simpl.
    exists (Service :: evs). rewrite <- app_assoc.
    repeat split; try done. by constructor.
  - intros [= <-]. simpl. exists [Service]. repeat split; try done.
    by repeat constructor.
Qed.

Lemma delay_yield_only_services (fuel : nat) next e w next' w' :
  delay_yield fuel next e w = Some (next', w') ->
  exists evs, timeline w' = timeline w ++ evs /\ kicked_polls evs = true
              /\ Forall (fun ev => ev = Service) evs.
Proof.
  unfold delay_yield.
  repeat case_match; intros [= <- <-]; simplify_eq;
    try (exists []; by rewrite app_nil_r).
  by eapply wlan_service_only_services.
Qed.

Lemma delay_loop_kicked_polls (fuel : nat) ms last next w w' :
  delay_loop fuel ms last next w = Some w' ->
  exists evs, timeline w' = timeline w ++ evs
              /\ kicked_polls evs = true
              /\ count_kicks evs = count_polls evs
              /\ (1 <= count_kicks evs)%nat.
Proof.
  revert next w. induction fuel as [|f IH]; intros next w; simpl; [done|].
  destruct (GetSystem1MsTick (KICK_WDT w)) as [cur w2] eqn:E.
  apply GetSystem1MsTick_timeline in E as [E _]. simpl in E.
  destruct (delay_done ms (elapsed_millis last cur)).
  - intros [= <-]. exists [Kick; Poll cur].
    rewrite E, <- app_assoc. simpl. by repeat split.
  - destruct (delay_yield f next (elapsed_millis last cur) w2)
      as [[next' w3]|] eqn:Hy; [|done].
    pose proof Hy as Hy'.
    apply delay_yield_events in Hy as (evs & Hy & Hk & Hp).
    apply delay_yield_only_services in Hy' as (evs0 & Hy0 & Ho & _).
    rewrite Hy in Hy0. apply app_inv_head in Hy0. subst evs0.
    intros H. apply IH in H as (evs' & -> & Ho' & Hk' & Hge).
    exists ([Kick; Poll cur] ++ evs ++ evs'). split; [|split].
    + rewrite Hy, E. by rewrite <- !app_assoc.
    + simpl. by apply kicked_polls_app.
    + rewrite !count_kicks_app, !count_polls_app. simpl. lia.
Qed.

(** X17: the watchdog is kicked once per iteration, before the poll. When
    [delay] returns, what it did since entry is the reading on entry
    followed by rounds in which every poll comes right after a kick and
    every kick is followed at once by a poll (service events may stand
    between the rounds); there is at least one kick, and as many kicks as
    polls of the loop. *)
Theorem delay_kicks_once_per_poll (fuel : nat) ms w w' :
  delay fuel ms w = Some w' ->
  exists start evs,
    events_since w w' = Poll start :: evs
    /\ kicked_polls evs = true
    /\ (1 <= count_kicks evs)%nat
    /\ count_polls evs = count_kicks evs.
Proof.
  unfold delay.
  set (w0 := if SPARK_WLAN_ENABLE then _ else w).
  assert (H0 : timeline w0 = timeline w).
  { subst w0. destruct SPARK_WLAN_ENABLE; simpl; by rewrite ?app_nil_r. }
  destruct (GetSystem1MsTick w0) as [start w1] eqn:E1.
  apply GetSystem1MsTick_timeline in E1 as [E1 _].
  intros H. apply delay_loop_kicked_polls in H as (evs & T & Ho & Hk & Hge).
  exists start, evs. split; [|by repeat split].
  apply events_since_app. rewrite T, E1, H0. by rewrite <- app_assoc.
Qed.

Lemma delay_loop_without_network (fuel : nat) ms last next w w' :
  SPARK_WLAN_ENABLE = false ->
  delay_loop fuel ms last next w = Some w' ->
  spark_loop_total_millis w' = spark_loop_total_millis w
  /\ exists evs, timeline w' = timeline w ++ evs /\ count_services evs = O.
Proof.
  intros Hoff. revert next w.
  induction fuel as [|f IH]; intros next w; simpl; [done|].
  unfold GetSystem1MsTick, KICK_WDT. simpl.
  destruct (system_1ms_tick (hw w)) as [t h].
  destruct (delay_done _ _).
  - intros [= <-]. simpl. split; [done|].
    exists [Kick; Poll (to_ulong t)]. by rewrite <- app_assoc.
  - unfold delay_yield. rewrite Hoff. simpl.
    intros H. apply IH in H as [Ht (evs & -> & Hs)]. simpl in *.
    split; [done|]. exists ([Kick; Poll (to_ulong t)] ++ evs).
    split; [by rewrite <- !app_assoc | done].
Qed.

(** X18: without the network loop compiled in ([SPARK_WLAN_ENABLE] off)
    [delay] is a plain busy wait: it never calls the network service
    routine and leaves [spark_loop_total_millis] as it was. *)
Theorem delay_without_network (fuel : nat) ms w w' :
  SPARK_WLAN_ENABLE = false ->
  delay fuel ms w = Some w' ->
  count_services (events_since w w') = O
  /\ spark_loop_total_millis w' = spark_loop_total_millis w.
Proof.
  intros Hoff. unfold delay. rewrite Hoff.
  unfold GetSystem1MsTick.
  destruct (system_1ms_tick (hw w)) as [t h].
  intros H. apply (delay_loop_without_network _ _ _ _ _ _ Hoff) in H
    as [Ht (evs & T & Hs)]. simpl in *.
  split; [|done].
  rewrite (events_since_app w w' (Poll (to_ulong t) :: evs)); [done|].
  rewrite T. by rewrite <- app_assoc.
Qed.

End MoreDelayProperties.

(** *** A counter that advances by one at each poll *)

Section UnitClock.

Context {bd : Board} {HW : Type} {pf : Platform HW}.
Implicit Types (w : @World HW) (ms last : Z).

(** The platform has a millisecond counter [clock]: a poll reads it and
    advances it by one (modulo [2 ^ 32]); the network loop does not touch
    it, and no firmware update is running. *)
Variable clock : HW -> Z.
Hypothesis tick_reads_clock :
  forall h, to_ulong (system_1ms_tick h).1 = to_ulong (clock h).
Hypothesis tick_advances_clock :
  forall h, to_ulong (clock (system_1ms_tick h).2) = to_ulong (clock h + 1).
Hypothesis wlan_keeps_clock :
  forall h, to_ulong (clock (wlan_loop h)) = to_ulong (clock h).
Hypothesis no_flash_update : forall h, flash_update h = false.

Lemma to_ulong_succ_congr a b :
  to_ulong a = to_ulong b -> to_ulong (a + 1) = to_ulong (b + 1).
Proof.
  unfold to_ulong. intros H.
  by rewrite (Zplus_mod a), H, <- Zplus_mod.
Qed.

Lemma to_long_of_offset last j :
  0 <= j < 2 ^ 31 -> to_long (to_ulong (last + j) - last) = j.
Proof.
  intros Hj. unfold to_ulong.
  rewrite (Z.mod_eq (last + j) (2 ^ 32)) by lia.
  replace (last + j - 2 ^ 32 * ((last + j) / 2 ^ 32) - last)
    with (j + (- ((last + j) / 2 ^ 32)) * 2 ^ 32) by lia.
  unfold to_long. simpl. rewrite Z_mod_plus_full.
  rewrite Z.mod_small by lia. case_match; lia.
Qed.

Lemma delay_yield_unit_clock (f : nat) next e w :
  exists next' w' evs,
    delay_yield (S f) next e w = Some (next', w')
    /\ timeline w' = timeline w ++ evs
    /\ count_kicks evs = O
    /\ to_ulong (clock (hw w')) = to_ulong (clock (hw w)).
Proof.
  unfold delay_yield. simpl. rewrite no_flash_update.
  repeat case_match;
    try (exists next, w, []; by rewrite app_nil_r).
  eexists _, _, [Service]. repeat split; try done. apply wlan_keeps_clock.
Qed.

Lemma delay_loop_unit_clock ms last (m : nat) :
  forall (j : Z) (f : nat) next w,
    1 <= j -> j + Z.of_nat m < 2 ^ 31 ->
    Z.of_nat m = Z.max 0 (ms - j) ->
    (m <= f)%nat ->
    to_ulong (clock (hw w)) = to_ulong (last + j) ->
    exists w' evs,
      delay_loop (S f) ms last next w = Some w'
      /\ timeline w' = timeline w ++ evs
      /\ count_kicks evs = S m.
Proof.
  induction m as [|m IH]; intros j f next w Hj Hlt Hm Hf Hclk.
  - simpl. unfold GetSystem1MsTick, KICK_WDT. simpl.
    pose proof (tick_reads_clock (hw w)) as Hr.
    destruct (system_1ms_tick (hw w)) as [t h]. simpl in Hr.
    rewrite Hr, Hclk. unfold elapsed_millis, delay_done.
    rewrite to_long_of_offset by lia.
    rewrite (proj2 (Z.ltb_ge j 0)) by lia.
    unfold to_ulong at 1. rewrite (Z.mod_small j) by lia.
    rewrite (proj2 (Z.leb_le ms j)) by lia.
    eexists _, [Kick; Poll _]. split; [done|]. simpl.
    split; [by rewrite <- app_assoc | done].
  - destruct f as [|f]; [lia|].
    cbn [delay_loop]. unfold GetSystem1MsTick, KICK_WDT. simpl.
    pose proof (tick_reads_clock (hw w)) as Hr.
    pose proof (tick_advances_clock (hw w)) as Ha.
    destruct (system_1ms_tick (hw w)) as [t h]. simpl in Hr, Ha.
    rewrite Hr, Hclk. unfold elapsed_millis at 1, delay_done.
    rewrite to_long_of_offset by lia.
    rewrite (proj2 (Z.ltb_ge j 0)) by lia.
    unfold to_ulong at 1. rewrite (Z.mod_small j) by lia.
    rewrite (proj2 (Z.leb_gt ms j)) by lia.
    match goal with
    | |- context [delay_yield (S f) next ?e ?w2] =>
        destruct (delay_yield_unit_clock f next e w2)
          as (next' & w3 & evs & -> & T3 & K3 & C3)
    end.
    simpl in C3.
    destruct (IH (j + 1) f next' w3) as (w' & evs' & Hrun & T & K);
      [lia | lia | lia | lia | |].
    { rewrite C3, Ha. replace (last + (j + 1)) with (last + j + 1) by lia.
      by apply to_ulong_succ_congr. }
    exists w', ([Kick; Poll (to_ulong (last + j))] ++ evs ++ evs').
    split; [exact Hrun|]. split.
    + rewrite T, T3. simpl. by rewrite <- !app_assoc.
    + rewrite !count_kicks_app, K3, K. simpl. lia.
Qed.

(** X19: with a counter that advances by one at each poll, [delay(ms)]
    returns for every [ms] below [2 ^ 31], after [max 1 ms] iterations of
    the loop: it kicks the watchdog that many times. *)
Theorem delay_returns_with_unit_clock ms w :
  0 <= ms < 2 ^ 31 ->
  exists w',
    delay (S (Z.to_nat ms)) ms w = Some w'
    /\ count_kicks (events_since w w') = Z.to_nat (Z.max 1 ms).
Proof.
  intros Hms. unfold delay.
  set (w0 := if SPARK_WLAN_ENABLE then _ else w).
  assert (H0 : timeline w0 = timeline w /\ hw w0 = hw w).
  { subst w0. destruct SPARK_WLAN_ENABLE; simpl; by rewrite ?app_nil_r. }
  destruct H0 as [H0 Hh].
  unfold GetSystem1MsTick. rewrite Hh.
  pose proof (tick_reads_clock (hw w)) as Hr.
  pose proof (tick_advances_clock (hw w)) as Ha.
  destruct (system_1ms_tick (hw w)) as [t h]. simpl in Hr, Ha.
  destruct (delay_loop_unit_clock ms (to_ulong t)
              (Z.to_nat (Z.max 0 (ms - 1))) 1 (Z.to_nat ms)
              (to_ulong SPARK_LOOP_DELAY_MILLIS)
              (with_time h (spark_loop_total_millis w0) [Poll (to_ulong t)] w0))
    as (w' & evs & Hrun & T & K); [lia | lia | lia | lia | |].
  { simpl. rewrite Ha. apply to_ulong_succ_congr. rewrite <- Hr.
    unfold to_ulong. by rewrite Zmod_mod. }
  exists w'. split; [exact Hrun|].
  rewrite (events_since_app w w' (Poll (to_ulong t) :: evs)).
  - simpl. rewrite K. lia.
  - rewrite T. simpl. rewrite H0. by rewrite <- app_assoc.
Qed.

End UnitClock.

(** ** The further properties on the Spark Core *)

Lemma analogRead_short_form_witness :
  0 <= 3 < FIRST_ANALOG_PIN /\ 3 + FIRST_ANALOG_PIN < 2 ^ 16
  /\ analogRead 3 idle_world = analogRead 13 idle_world.
Proof.
  assert (H1 : 0 <= 3 < FIRST_ANALOG_PIN) by (simpl; lia).
  assert (H2 : 3 + FIRST_ANALOG_PIN < 2 ^ 16) by (simpl; lia).
  split; [exact H1 | split; [exact H2|]].
  exact (analogRead_short_form idle_world 3 H1 H2).
Defined.

Lemma digitalRead_guard_witness :
  table_ok idle_world /\ 0 <= 4 /\ 0 <= 6
  /\ read_guard 4 idle_world = true
  /\ digitalRead 4 idle_world = HAL_GPIO_Read 4 idle_world
  /\ read_guard 6 idle_world = false
  /\ digitalRead 6 idle_world = Done LOW idle_world.
Proof.
  assert (H0 : table_ok idle_world) by reflexivity.
  assert (H4 : 0 <= 4) by lia.
  assert (H6 : 0 <= 6) by lia.
  assert (G4 : read_guard 4 idle_world = true) by (vm_compute; reflexivity).
  assert (G6 : read_guard 6 idle_world = false) by (vm_compute; reflexivity).
  destruct (digitalRead_guard idle_world 4 H0 H4) as [Hon _].
  destruct (digitalRead_guard idle_world 6 H0 H6) as [_ Hoff].
  split; [exact H0|]. split; [exact H4|]. split; [exact H6|].
  split; [exact G4|]. split; [exact (Hon G4)|].
  split; [exact G6 | exact (Hoff G6)].
Defined.

Lemma read_and_write_only_in_output_mode_witness :
  PIN_MAP idle_world !! Z.to_nat 2 = Some (mkPin OUTPUT None None)
  /\ digitalWrite 2 HIGH idle_world = HAL_GPIO_Write 2 HIGH idle_world
  /\ digitalRead 2 idle_world = HAL_GPIO_Read 2 idle_world.
Proof.
  assert (H : PIN_MAP idle_world !! Z.to_nat 2 = Some (mkPin OUTPUT None None))
    by (vm_compute; reflexivity).
  split; [exact H|].
  apply (proj2 (read_and_write_only_in_output_mode idle_world 2 HIGH _ H)).
  split; [simpl; lia | split; reflexivity].
Defined.

Lemma analogWrite_guard_witness :
  let w := with_mode 10 OUTPUT idle_world in
  table_ok w /\ 0 <= 10 /\ 0 <= 2
  /\ pwm_guard 10 w = true
  /\ analogWrite 10 128 w = HAL_PWM_Write 10 128 w
  /\ pwm_guard 2 w = false
  /\ analogWrite 2 128 w = Done tt w.
Proof.
  intros w.
  assert (H0 : table_ok w) by reflexivity.
  assert (H10 : 0 <= 10) by lia.
  assert (H2 : 0 <= 2) by lia.
  assert (G10 : pwm_guard 10 w = true) by (vm_compute; reflexivity).
  assert (G2 : pwm_guard 2 w = false) by (vm_compute; reflexivity).
  destruct (analogWrite_guard w 10 128 H0 H10) as (Hon & _ & _).
  destruct (analogWrite_guard w 2 128 H0 H2) as (_ & Hoff & _).
  split; [exact H0|]. split; [exact H10|]. split; [exact H2|].
  split; [exact G10|]. split; [exact (Hon G10)|].
  split; [exact G2 | exact (Hoff G2)].
Defined.

Lemma shiftOut_call_sequence_witness :
  table_ok register_world /\ 0 <= 2 /\ 0 <= 3
  /\ exists w1,
       shiftOut 2 3 LSBFIRST 165 register_world = Done tt w1
       /\ calls_since register_world w1 =
            shiftOut_calls true true 2 3 [1; 0; 1; 0; 0; 1; 0; 1].
Proof.
  assert (H0 : table_ok register_world) by reflexivity.
  assert (H2 : 0 <= 2) by lia.
  assert (H3 : 0 <= 3) by lia.
  split; [exact H0|]. split; [exact H2|]. split; [exact H3|].
  exact (shiftOut_call_sequence register_world 2 3 LSBFIRST 165 H0 H2 H3).
Defined.

Lemma shiftIn_call_sequence_witness :
  table_ok register_world /\ 0 <= 4 /\ 0 <= 5
  /\ read_guard 4 register_world = true
  /\ write_guard 5 register_world = true
  /\ exists v w2 samples,
       shiftIn 4 5 MSBFIRST register_world = Done v w2
       /\ length samples = 8%nat
       /\ calls_since register_world w2 = shiftIn_calls 4 5 samples
       /\ v = assemble MSBFIRST 0 0 samples.
Proof.
  assert (H0 : table_ok register_world) by reflexivity.
  assert (H4 : 0 <= 4) by lia.
  assert (H5 : 0 <= 5) by lia.
  assert (G4 : read_guard 4 register_world = true) by (vm_compute; reflexivity).
  assert (G5 : write_guard 5 register_world = true) by (vm_compute; reflexivity).
  split; [exact H0|]. split; [exact H4|]. split; [exact H5|].
  split; [exact G4|]. split; [exact G5|].
  exact (shiftIn_call_sequence register_world 4 5 MSBFIRST H0 H4 H5 G4 G5).
Defined.

Lemma shiftIn_returns_byte_witness :
  table_ok idle_world /\ 0 <= 6 /\ 0 <= 5
  /\ read_guard 6 idle_world = false
  /\ exists v w2,
       shiftIn 6 5 LSBFIRST idle_world = Done v w2 /\ v = 0.
Proof.
  assert (H0 : table_ok idle_world) by reflexivity.
  assert (H6 : 0 <= 6) by lia.
  assert (H5 : 0 <= 5) by lia.
  assert (G6 : read_guard 6 idle_world = false) by (vm_compute; reflexivity).
  destruct (shiftIn_returns_byte idle_world 6 5 LSBFIRST H0 H6 H5)
    as (v & w2 & Hrun & _ & Hz).
  split; [exact H0|]. split; [exact H6|]. split; [exact H5|].
  split; [exact G6|]. exists v, w2. split; [exact Hrun | exact (Hz G6)].
Defined.

Lemma shiftOut_msb_reverses_lsb_witness :
  let w := idle_world in
  let wl := res_world w (shiftOut 2 3 LSBFIRST 165 w) in
  let wm := res_world w (shiftOut 2 3 MSBFIRST 165 w) in
  2 <> 3 /\ write_guard 2 w = true
  /\ shiftOut 2 3 LSBFIRST 165 w = Done tt wl
  /\ shiftOut 2 3 MSBFIRST 165 w = Done tt wm
  /\ gpio_writes 2 (calls_since w wm) = rev (gpio_writes 2 (calls_since w wl)).
Proof.
  intros w wl wm.
  assert (H1 : 2 <> 3) by lia.
  assert (H2 : write_guard 2 w = true) by (vm_compute; reflexivity).
  assert (H3 : shiftOut 2 3 LSBFIRST 165 w = Done tt wl)
    by (vm_compute; reflexivity).
  assert (H4 : shiftOut 2 3 MSBFIRST 165 w = Done tt wm)
    by (vm_compute; reflexivity).
  split; [exact H1|]. split; [exact H2|]. split; [exact H3|].
  split; [exact H4|].
  exact (shiftOut_msb_reverses_lsb w wl wm 2 3 165 H1 H2 H3 H4).
Defined.

Lemma map_within_output_range_witness :
  is_long 255 /\ is_long 0 /\ 0 < 1023 /\ 0 <= 512 <= 1023
  /\ is_long (1023 - 0) /\ is_long (0 - 255)
  /\ is_long ((1023 - 0) * (0 - 255))
  /\ exists y, LinearMap.map 512 0 1023 255 0 = Some y
               /\ Z.min 255 0 <= y <= Z.max 255 0.
Proof.
  assert (H1 : is_long 255) by (unfold is_long; lia).
  assert (H2 : is_long 0) by (unfold is_long; lia).
  assert (H3 : 0 < 1023) by lia.
  assert (H4 : 0 <= 512 <= 1023) by lia.
  assert (H5 : is_long (1023 - 0)) by (unfold is_long; lia).
  assert (H6 : is_long (0 - 255)) by (unfold is_long; lia).
  assert (H7 : is_long ((1023 - 0) * (0 - 255))) by (unfold is_long; lia).
  repeat (split; [assumption|]).
  exact (map_within_output_range 512 0 1023 255 0 H1 H2 H3 H4 H5 H6 H7).
Defined.

Lemma map_monotone_witness :
  is_long 0 /\ is_long 255 /\ 0 < 1023 /\ 0 <= 255
  /\ 0 <= 511 /\ 511 <= 512 /\ 512 <= 1023
  /\ is_long (1023 - 0) /\ is_long (255 - 0)
  /\ is_long ((1023 - 0) * (255 - 0))
  /\ exists a b, LinearMap.map 511 0 1023 0 255 = Some a
                 /\ LinearMap.map 512 0 1023 0 255 = Some b
                 /\ a <= b.
Proof.
  assert (H1 : is_long 0) by (unfold is_long; lia).
  assert (H2 : is_long 255) by (unfold is_long; lia).
  assert (H3 : 0 < 1023) by lia.
  assert (H4 : 0 <= 255) by lia.
  assert (H5 : 0 <= 511) by lia.
  assert (H6 : 511 <= 512) by lia.
  assert (H7 : 512 <= 1023) by lia.
  assert (H8 : is_long (1023 - 0)) by (unfold is_long; lia).
  assert (H9 : is_long (255 - 0)) by (unfold is_long; lia).
  assert (H10 : is_long ((1023 - 0) * (255 - 0))) by (unfold is_long; lia).
  repeat (split; [assumption|]).
  exact (map_monotone 511 512 0 1023 0 255 H1 H2 H3 H4 H5 H6 H7 H8 H9 H10).
Defined.

Lemma map_same_range_identity_witness :
  is_long 37 /\ (0 : Z) <> 100
  /\ is_long (37 - 0) /\ is_long (100 - 0) /\ is_long ((37 - 0) * (100 - 0))
  /\ LinearMap.map 37 0 100 0 100 = Some 37.
Proof.
  assert (H1 : is_long 37) by (unfold is_long; lia).
  assert (H2 : (0 : Z) <> 100) by lia.
  assert (H3 : is_long (37 - 0)) by (unfold is_long; lia).
  assert (H4 : is_long (100 - 0)) by (unfold is_long; lia).
  assert (H5 : is_long ((37 - 0) * (100 - 0))) by (unfold is_long; lia).
  repeat (split; [assumption|]).
  exact (map_same_range_identity 37 0 100 H1 H2 H3 H4 H5).
Defined.

Lemma delay_blocks_at_least_ms_witness :
  let w' := default wrap_world (delay 20 5 wrap_world) in
  5 <= 2 ^ 31
  /\ delay 20 5 wrap_world = Some w'
  /\ exists start evs cur,
       events_since wrap_world w' = Poll start :: evs ++ [Poll cur]
       /\ 5 <= ticks_since start cur.
Proof.
  intros w'.
  assert (H1 : 5 <= 2 ^ 31) by lia.
  assert (H2 : delay 20 5 wrap_world = Some w') by (vm_compute; reflexivity).
  split; [exact H1 | split; [exact H2|]].
  exact (delay_blocks_at_least_ms 20 5 wrap_world w' H1 H2).
Defined.


Lemma delay_kicks_once_per_poll_witness :
  let w' := default due_world (delay 20 3 due_world) in
  delay 20 3 due_world = Some w'
  /\ events_since due_world w'
     = [Poll 5; Kick; Poll 6; Service; Kick; Poll 7; Kick; Poll 8]
  /\ exists start evs,
       events_since due_world w' = Poll start :: evs
       /\ kicked_polls evs = true
       /\ (1 <= count_kicks evs)%nat
       /\ count_polls evs = count_kicks evs.
Proof.
  intros w'.
  assert (H : delay 20 3 due_world = Some w') by (vm_compute; reflexivity).
  split; [exact H | split; [vm_compute; reflexivity|]].
  exact (delay_kicks_once_per_poll 20 3 due_world w' H).
Defined.

Lemma delay_without_network_witness :
  let w' := default due_world
              (@delay spark_core_offline Bench bench_platform 20 3 due_world) in
  @SPARK_WLAN_ENABLE spark_core_offline = false
  /\ @delay spark_core_offline Bench bench_platform 20 3 due_world = Some w'
  /\ count_services (events_since due_world w') = O
  /\ spark_loop_total_millis w' = spark_loop_total_millis due_world.
Proof.
  intros w'.
  assert (H1 : @SPARK_WLAN_ENABLE spark_core_offline = false) by reflexivity.
  assert (H2 : @delay spark_core_offline Bench bench_platform 20 3 due_world
               = Some w') by (vm_compute; reflexivity).
  split; [exact H1 | split; [exact H2|]].
  exact (@delay_without_network spark_core_offline Bench bench_platform
           20 3 due_world w' H1 H2).
Defined.

Lemma delay_returns_with_unit_clock_witness :
  0 <= 100 < 2 ^ 31
  /\ exists w',
       @delay spark_core Z counter_platform (S (Z.to_nat 100)) 100
         (counter_world 4294967250) = Some w'
       /\ count_kicks (events_since (counter_world 4294967250) w')
          = Z.to_nat (Z.max 1 100).
Proof.
  assert (H : 0 <= 100 < 2 ^ 31) by lia.
  split; [exact H|].
  exact (@delay_returns_with_unit_clock spark_core Z counter_platform
           (fun t => t)
           (fun h => eq_refl) (fun h => eq_refl) (fun h => eq_refl)
           (fun h => eq_refl) 100 (counter_world 4294967250) H).
Defined.

Lemma hal_calls_on_free_pins_witness :
  let w' := res_world idle_world (digitalWrite 2 HIGH idle_world) in
  digitalWrite 2 HIGH idle_world = Done tt w'
  /\ calls_since idle_world w' = [Call_GPIO_Write 2 HIGH]
  /\ Forall (on_free_pin idle_world) (calls_since idle_world w').
Proof.
  intros w'.
  assert (H : digitalWrite 2 HIGH idle_world = Done tt w')
    by (vm_compute; reflexivity).
  split; [exact H | split; [vm_compute; reflexivity|]].
  exact (proj1 (proj2 (hal_calls_on_free_pins idle_world 2 HIGH OUTPUT)) w' H).
Defined.

(** ** The elapsed time inside [delay] *)

Section DelayElapsed.

Context {bd : Board} {HW : Type} {pf : Platform HW}.
Implicit Types (w : @World HW) (ms last : Z).

Lemma services_before_exit start ms (evs : list TimeEvent) :
  Forall (fun ev => ev = Service) evs ->
  Forall (poll_before_exit start ms) evs.
Proof. intros H. eapply Forall_impl; [exact H|]. by intros ev ->. Qed.

(** The loop returns at the first poll at which the elapsed time has
    reached [ms]. *)
Lemma delay_loop_first_exit (fuel : nat) ms last next w w' :
  delay_loop fuel ms last next w = Some w' ->
  exists evs cur,
    timeline w' = timeline w ++ evs ++ [Poll cur]
    /\ ms <= wrap_corrected_elapsed last cur
    /\ Forall (poll_before_exit last ms) evs.
Proof.
  revert next w. induction fuel as [|f IH]; intros next w; [done|].
  rewrite delay_loop_iteration.
  destruct (GetSystem1MsTick (KICK_WDT w)) as [cur w2] eqn:E.
  apply GetSystem1MsTick_timeline in E as [E _]. simpl in E. simpl.
  destruct (Z.leb_spec ms (wrap_corrected_elapsed last cur)) as [Hex|Hgo].
  - intros [= <-]. exists [Kick], cur. rewrite E, <- app_assoc.
    repeat split; try done. by repeat constructor.
  - destruct (delay_yield f next (elapsed_millis last cur) w2)
      as [[next' w3]|] eqn:Hy; [|done].
    apply delay_yield_only_services in Hy as (evs & Hy & _ & Hs).
    intros H. apply IH in H as (evs' & cur' & -> & Hex & Hall).
    exists ([Kick; Poll cur] ++ evs ++ evs'), cur'. split; [|split; [done|]].
    + rewrite Hy, E. by rewrite <- !app_assoc.
    + repeat (apply Forall_app_2 || constructor); try done.
      by apply services_before_exit.
Qed.

(** C3: inside [delay] the tick read on entry is the start; in each
    iteration the elapsed time is [current - start] in native-width
    arithmetic, replaced by [start + current] when the subtraction reads as
    negative, and the loop exits exactly when that value is at least [ms].
    A run that returns has polled, after the reading on entry, only ticks
    whose elapsed time was below [ms], and then one whose elapsed time had
    reached [ms]; the first iteration returns at once when its elapsed time
    has reached [ms] and goes on to the network step and the next
    iteration otherwise, as does every later iteration; the value the code
    keeps in its [long] is that elapsed time. *)
Theorem delay_elapsed_and_exit (fuel : nat) ms w :
  let start := to_ulong (system_1ms_tick (hw w)).1 in
  (forall w', delay fuel ms w = Some w' ->
     exists evs cur,
       events_since w w' = Poll start :: evs ++ [Poll cur]
       /\ ms <= wrap_corrected_elapsed start cur
       /\ Forall (poll_before_exit start ms) evs)
  /\ (exists w1,
        timeline w1 = timeline w ++ [Poll start]
        /\ hw w1 = (system_1ms_tick (hw w)).2
        /\ let cur := (GetSystem1MsTick (KICK_WDT w1)).1 in
           let w2 := (GetSystem1MsTick (KICK_WDT w1)).2 in
           delay (S fuel) ms w =
             if ms <=? wrap_corrected_elapsed start cur then Some w2
             else match delay_yield fuel (to_ulong SPARK_LOOP_DELAY_MILLIS)
                          (elapsed_millis start cur) w2 with
                  | Some (next, w3) => delay_loop fuel ms start next w3
                  | None => None
                  end)
  /\ (forall last next v,
        let cur := (GetSystem1MsTick (KICK_WDT v)).1 in
        let w2 := (GetSystem1MsTick (KICK_WDT v)).2 in
        delay_loop (S fuel) ms last next v =
          if ms <=? wrap_corrected_elapsed last cur then Some w2
          else match delay_yield fuel next (elapsed_millis last cur) w2 with
               | Some (next', w3) => delay_loop fuel ms last next' w3
               | None => None
               end)
  /\ (forall last cur,
        to_ulong (elapsed_millis last cur) = wrap_corrected_elapsed last cur).
Proof.
  intros start.
  assert (Hentry : exists w1,
             (forall f, delay f ms w = delay_loop f ms start
                                         (to_ulong SPARK_LOOP_DELAY_MILLIS) w1)
             /\ timeline w1 = timeline w ++ [Poll start]
             /\ hw w1 = (system_1ms_tick (hw w)).2).
  { unfold delay, GetSystem1MsTick. subst start.
    destruct SPARK_WLAN_ENABLE; simpl;
      destruct (system_1ms_tick (hw w)) as [t h]; simpl;
      eexists; (split; [intros f; reflexivity|]); simpl;
      by rewrite ?app_nil_r. }
  destruct Hentry as (w1 & Hd & T1 & H1).
  split; [|split; [|split]].
  - intros w' H. rewrite Hd in H.
    apply delay_loop_first_exit in H as (evs & cur & T & Hex & Hall).
    exists evs, cur. split; [|done].
    apply events_since_app. rewrite T, T1. by rewrite <- app_assoc.
  - exists w1. split; [done|]. split; [done|].
    rewrite Hd. apply delay_loop_iteration.
  - intros last next v. apply delay_loop_iteration.
  - apply elapsed_millis_unsigned.
Qed.

End DelayElapsed.

Lemma delay_elapsed_and_exit_witness :
  let w' := default wrap_world (delay 20 5 wrap_world) in
  delay 20 5 wrap_world = Some w'
  /\ events_since wrap_world w'
     = [Poll 4294967294; Kick; Poll 4294967295; Kick; Poll 0; Kick; Poll 1;
        Kick; Poll 2; Kick; Poll 3]
  /\ exists evs cur,
       events_since wrap_world w' = Poll 4294967294 :: evs ++ [Poll cur]
       /\ 5 <= wrap_corrected_elapsed 4294967294 cur
       /\ Forall (poll_before_exit 4294967294 5) evs.
Proof.
  intros w'.
  assert (H : delay 20 5 wrap_world = Some w') by (vm_compute; reflexivity).
  split; [exact H | split; [vm_compute; reflexivity|]].
  exact (proj1 (delay_elapsed_and_exit 20 5 wrap_world) w' H).
Defined.

(** On the plain wire of [wire_world] every byte, in either bit order, comes
    back from [shiftOut] then [shiftIn] as 0 or 255. *)
Lemma shift_wire_loopback_extremes (b : Z) bitOrder :
  0 <= b < 256 ->
  res_value (-1)
    (shiftIn 4 5 bitOrder
       (res_world wire_world (shiftOut 2 3 bitOrder b wire_world))) = 0
  \/ res_value (-1)
       (shiftIn 4 5 bitOrder
          (res_world wire_world (shiftOut 2 3 bitOrder b wire_world))) = 255.
Proof.
  intros Hb.
  assert (Hall : forallb
            (fun x =>
               (res_value (-1)
                  (shiftIn 4 5 bitOrder
                     (res_world wire_world
                        (shiftOut 2 3 bitOrder x wire_world))) =? 0)
               || (res_value (-1)
                     (shiftIn 4 5 bitOrder
                        (res_world wire_world
                           (shiftOut 2 3 bitOrder x wire_world))) =? 255))
            (seqZ 0 256) = true)
    by (destruct bitOrder; vm_compute; reflexivity).
  rewrite forallb_forall in Hall.
  assert (Hin : In b (seqZ 0 256))
    by (apply list_elem_of_In, elem_of_seqZ; lia).
  apply Hall in Hin. cbv beta in Hin.
  apply orb_true_iff in Hin as [H|H]; apply Z.eqb_eq in H; auto.
Qed.
